(** * SERP Brand Landscape Explorer: the data pass of [brand_viz_app.py]

    A shallow embedding of the loader, the three filters and the
    aggregations of [brand_viz_app.py], and the properties of them that
    the specification states.

    Conventions of the embedding.
    - A dataframe is the list of its rows, in row order.
    - A cell that pandas holds as NaN (an empty CSV field) is [None].
    - [position] is an integer rank 1..N, as the data model has it, so the
      weight is an integer ([Z]).
    - Shares are float64 in pandas; here they are rationals ([Q]) and a NaN
      share (0/0) is [None]. [Series.round(1)] rounds the exact quotient to
      the nearest tenth, ties to even; the script rounds the float64
      quotient, which on an exact tie can fall on either side, so what is
      stated of a share holds whichever way a tie goes, or is about values
      that float64 holds exactly. The float64 sums and the float64 limit of
      the sanity check are parameters ([FloatCheck]).
    - Strings are byte strings (UTF-8). The text functions the keyword
      filter calls ([str.strip], [str.lower], [re.compile]) are parameters
      ([TextLib]); [Str.strip], [Str.lower] and [Re] are these functions on
      ASCII text and on patterns of ordinary characters and dots.
    - A present cell of a text column holds text. The aggregations read the
      brand and keyword columns of a frame that has them with the object
      dtype; what line 33 raises on a keyword column that is absent or all
      missing is part of [keyword_step]. *)

From Stdlib Require Import ZArith QArith Qabs List Bool Ascii String Lia Lqa.
From Stdlib Require Import Permutation Sorted OrderedTypeEx.
Import ListNotations.

Open Scope string_scope.
Open Scope Z_scope.

(** ** Strings *)

Module Str.

(** [str.lower] on one character. *)
Definition lower_ascii (c : ascii) : ascii :=
  let n := nat_of_ascii c in
  if ((65 <=? n) && (n <=? 90))%nat then ascii_of_nat (n + 32) else c.

(** [str.lower]. *)
Fixpoint lower (s : string) : string :=
  match s with
  | EmptyString => EmptyString
  | String c s' => String (lower_ascii c) (lower s')
  end.

(** The characters [str.strip] removes: tab, line feed, vertical tab, form
    feed, carriage return, the four separators 28..31 and the space. *)
Definition is_space (c : ascii) : bool :=
  let n := nat_of_ascii c in
  (((9 <=? n) && (n <=? 13)) || ((28 <=? n) && (n <=? 32)))%nat.

Fixpoint lstrip (s : string) : string :=
  match s with
  | EmptyString => EmptyString
  | String c s' => if is_space c then lstrip s' else s
  end.

Fixpoint rstrip (s : string) : string :=
  match s with
  | EmptyString => EmptyString
  | String c s' =>
      match rstrip s' with
      | EmptyString => if is_space c then EmptyString else String c EmptyString
      | t => String c t
      end
  end.

(** [str.strip]. *)
Definition strip (s : string) : string := rstrip (lstrip s).

Definition is_empty (s : string) : bool :=
  match s with EmptyString => true | _ => false end.

(** [s.split(", ")]: the pieces between the non-overlapping occurrences of
    the two-character separator, scanned from the left; [cur] is the piece
    being read. The result is never the empty list. *)
Fixpoint split_from (cur s : string) : list string :=
  match s with
  | EmptyString => [cur]
  | String c s' =>
      match s' with
      | String d rest =>
          if (Ascii.eqb c ","%char && Ascii.eqb d " "%char)%bool
          then cur :: split_from EmptyString rest
          else split_from (cur ++ String c EmptyString) s'
      | EmptyString => [cur ++ String c EmptyString]
      end
  end.

Definition split_comma_space (s : string) : list string :=
  split_from EmptyString s.

(** [needle in s], as a proposition. *)
Definition contains (s needle : string) : Prop :=
  exists l r : string, s = l ++ needle ++ r.

End Str.

(** ** Records *)

(** A row of [output/brand_classifications_enriched.csv] as [pd.read_csv]
    returns it: every cell may be missing. *)
Record RawRow : Type := mkRaw {
  raw_state : option string;
  raw_keyword : option string;
  raw_position : option Z;
  raw_classification : option string;
  raw_url : option string;
  raw_real_brands : option string;
  raw_sweeps_brands : option string
}.

(** A row of the dataframe [load_data] returns. The filters and the views
    read the columns of a frame that has them. *)
Record Row : Type := mkRow {
  state : string;
  keyword : option string;
  position : option Z;
  classification : string;
  url : option string;
  real_brands : option string;
  sweeps_brands : option string;
  position_weight : Z
}.

(** ** Loader *)

(** [Series.fillna(d)] on one cell. *)
Definition fillna {A : Type} (d : A) (x : option A) : A :=
  match x with Some v => v | None => d end.


(** [lambda p: max(0, 11 - p) if pd.notna(p) else 0]. *)
Definition weight_of_position (p : option Z) : Z :=
  match p with
  | Some p => Z.max 0 (11 - p)
  | None => 0
  end.

Definition load_row (r : RawRow) : Row :=
  {| state := fillna "Unknown" (raw_state r);
     keyword := raw_keyword r;
     position := raw_position r;
     classification := fillna "Other" (raw_classification r);
     url := raw_url r;
     real_brands := raw_real_brands r;
     sweeps_brands := raw_sweeps_brands r;
     position_weight := weight_of_position (raw_position r) |}.

(** What [pd.read_csv] returns: the columns of the header and the rows. A
    cell of a column the file does not have is missing in every row. *)
Record Csv : Type := mkCsv {
  csv_columns : list string;
  csv_rows : list RawRow
}.

(** Whether [df[c]] finds the column [c]. *)
Definition has_column (c : string) (csv : Csv) : bool :=
  existsb (String.eqb c) (csv_columns csv).

(** The outcome of [load_data]. [pd.read_csv] raises when the file cannot
    be read, [df[c]] raises [KeyError] on a column the file does not have,
    and nothing in [load_data] catches either. *)
Inductive LoadResult : Type :=
| Loaded (df : list Row)
| DataAccessError
| KeyError (column : string).

(** [load_data], on what [pd.read_csv] finds: [None] when the file is
    absent or unreadable, its content otherwise. Lines 14, 15 and 17 read
    the columns [classification], [state] and [position], in this order. *)
Definition load_data (file : option Csv) : LoadResult :=
  match file with
  | None => DataAccessError
  | Some csv =>
      if negb (has_column "classification" csv) then KeyError "classification"
      else if negb (has_column "state" csv) then KeyError "state"
      else if negb (has_column "position" csv) then KeyError "position"
      else Loaded (map load_row (csv_rows csv))
  end.

(** ** Filters *)

(** [Series.between(lo, hi)] on one cell: inclusive on both sides, false on
    a missing value. *)
Definition between (lo hi : Z) (p : option Z) : bool :=
  match p with
  | Some p => (lo <=? p) && (p <=? hi)
  | None => false
  end.

(** [df[df["position"].between(pos_filter[0], pos_filter[1])]]. *)
Definition position_filter (lo hi : Z) (df : list Row) : list Row :=
  filter (fun r => between lo hi (position r)) df.

(** [Series.isin(values)] on one cell. *)
Definition isin (values : list string) (s : string) : bool :=
  existsb (String.eqb s) values.

(** [df[df["state"].isin(state_sel)]]. *)
Definition state_filter (state_sel : list string) (df : list Row) : list Row :=
  filter (fun r => isin state_sel (state r)) df.

(** ** Keyword filter *)

(** [Series.str.contains(pat, na=False)] takes [pat] as a regular
    expression (pandas' default, [regex=True]) and searches each cell with
    [re.search]. The fragment of Python's [re] modelled here: an ordinary
    character matches itself, and [.] matches any character but the line
    feed. A pattern with any other special character of [re] is outside the
    fragment. *)
Module Re.

Inductive Atom : Type :=
| Lit (c : ascii)
| AnyChar.

(** The special characters of [re] other than the dot. *)
Definition special_chars : list ascii :=
  list_ascii_of_string "^$*+?{}[]\|()".

Definition is_special (c : ascii) : bool :=
  existsb (Ascii.eqb c) special_chars.

Definition is_dot (c : ascii) : bool := Ascii.eqb c "."%char.

(** [re.compile] on the fragment; [None] outside it. *)
Fixpoint compile (pat : string) : option (list Atom) :=
  match pat with
  | EmptyString => Some []
  | String c pat' =>
      if is_special c then None
      else
        match compile pat' with
        | None => None
        | Some re => Some ((if is_dot c then AnyChar else Lit c) :: re)
        end
  end.

Definition atom_match (a : Atom) (c : ascii) : bool :=
  match a with
  | Lit d => Ascii.eqb d c
  | AnyChar => negb (Ascii.eqb c (ascii_of_nat 10))
  end.

(** A match of the whole pattern that starts at the head of [s]. *)
Fixpoint match_here (re : list Atom) (s : string) : bool :=
  match re, s with
  | [], _ => true
  | _ :: _, EmptyString => false
  | a :: re', String c s' => atom_match a c && match_here re' s'
  end.

(** [re.search]: a match that starts anywhere in [s]. *)
Fixpoint search (re : list Atom) (s : string) : bool :=
  match_here re s ||
  match s with
  | EmptyString => false
  | String _ s' => search re s'
  end.

(** A pattern without any special character of [re]. *)
Fixpoint is_plain (pat : string) : bool :=
  match pat with
  | EmptyString => true
  | String c pat' => negb (is_special c) && negb (is_dot c) && is_plain pat'
  end.

(** The pattern that matches the characters of [s] one by one. *)
Fixpoint literal (s : string) : list Atom :=
  match s with
  | EmptyString => []
  | String c s' => Lit c :: literal s'
  end.

End Re.

(** [st.sidebar.text_input(...).strip().lower()]. *)
Definition keyword_sel (text : string) : string := Str.lower (Str.strip text).

(** [Series.str.contains(pat, na=False)] on one cell of
    [df_filt["keyword"].str.lower()]: a missing keyword gives [False]. *)
Definition str_contains (re : list Re.Atom) (cell : option string) : bool :=
  match cell with
  | Some s => Re.search re s
  | None => false
  end.

(** Lines 32-33: no filtering on an empty [keyword_sel], the regular
    expression search otherwise. [None]: the pattern is outside the
    modelled fragment of [re]. *)
Definition keyword_filter (ks : string) (df : list Row) : option (list Row) :=
  if Str.is_empty ks then Some df
  else
    match Re.compile ks with
    | None => None
    | Some re =>
        Some (filter (fun r => str_contains re (option_map Str.lower (keyword r))) df)
    end.

(** The three filters in the order of the script (lines 21, 31 and 32-33). *)
Definition apply_filters (lo hi : Z) (state_sel : list string) (text : string)
    (df : list Row) : option (list Row) :=
  keyword_filter (keyword_sel text) (state_filter state_sel (position_filter lo hi df)).

(** ** The keyword filter over the libraries it calls *)

(** The library functions that lines 27 and 33 call on text: [str.strip],
    [str.lower] (Python's, and the one of the [.str] accessor) and
    [re.compile], which gives the search of a pattern that compiles and
    [None] for a pattern on which it raises [re.error]. *)
Record TextLib : Type := mkTextLib {
  py_strip : string -> string;
  py_lower : string -> string;
  re_compile : string -> option (string -> bool)
}.

(** What the script can raise up to line 33: the errors of [load_data],
    [KeyError] from [df_filt["keyword"]] on a frame without that column,
    [AttributeError] from the [.str] accessor of a column that holds no
    text, and [re.error] from the pattern. *)
Inductive Error : Type :=
| FileError
| MissingColumn (column : string)
| AttributeError
| RegexError.

Inductive Outcome (A : Type) : Type :=
| Ok (a : A)
| Raised (e : Error).

Arguments Ok {A} a.
Arguments Raised {A} e.

(** A column of the loaded frame as line 33 finds it: absent from the
    file; present with every cell missing, which [read_csv] reads as
    float64; or present with a cell that holds text, which it reads with
    the object dtype. Filtering rows changes none of this. *)
Inductive ColumnKind : Type :=
| AbsentColumn
| EmptyColumn
| TextColumn.

Definition column_kind (name : string) (cell : RawRow -> option string) (csv : Csv)
    : ColumnKind :=
  if negb (has_column name csv) then AbsentColumn
  else if existsb (fun r => match cell r with Some _ => true | None => false end)
                  (csv_rows csv)
       then TextColumn
       else EmptyColumn.

Definition keyword_column (csv : Csv) : ColumnKind :=
  column_kind "keyword" raw_keyword csv.

(** Lines 27 and 32-33: [keyword_sel = text.strip().lower()]; nothing is
    done on an empty [keyword_sel]; otherwise [df_filt["keyword"]] is taken,
    then its [.str] accessor, then the pattern is compiled, then each
    lowercased cell is searched, a missing cell giving [False]
    ([na=False]). *)
Definition keyword_step (lib : TextLib) (column : ColumnKind) (text : string)
    (df : list Row) : Outcome (list Row) :=
  let ks := py_lower lib (py_strip lib text) in
  if Str.is_empty ks then Ok df
  else
    match column with
    | AbsentColumn => Raised (MissingColumn "keyword")
    | EmptyColumn => Raised AttributeError
    | TextColumn =>
        match re_compile lib ks with
        | None => Raised RegexError
        | Some found =>
            Ok (filter (fun r => match keyword r with
                                 | Some k => found (py_lower lib k)
                                 | None => false
                                 end)
                       df)
        end
    end.

(** The script from [load_data()] to [df_filt] (lines 20-33). *)
Definition script_filters (lib : TextLib) (lo hi : Z) (state_sel : list string)
    (text : string) (file : option Csv) : Outcome (list Row) :=
  match file with
  | None => Raised FileError
  | Some csv =>
      match load_data (Some csv) with
      | Loaded df =>
          keyword_step lib (keyword_column csv) text
            (state_filter state_sel (position_filter lo hi df))
      | KeyError c => Raised (MissingColumn c)
      | DataAccessError => Raised FileError
      end
  end.

(** What the library does on a pattern without special characters: the
    pattern compiles and its search is the search of a substring. *)
Definition literal_on_plain (lib : TextLib) : Prop :=
  forall pat, Re.is_plain pat = true ->
    exists found, re_compile lib pat = Some found /\
                  forall s, found s = true <-> Str.contains s pat.

(** The library on ASCII text and on the patterns of the fragment; it
    refuses the patterns outside the fragment. [keyword_filter] is
    [keyword_step] for this library on a keyword column that holds text. *)
Definition ascii_lib : TextLib :=
  {| py_strip := Str.strip;
     py_lower := Str.lower;
     re_compile := fun pat => option_map Re.search (Re.compile pat) |}.

(** Sequencing of steps that may raise. *)
Definition bind {A B : Type} (x : Outcome A) (f : A -> Outcome B) : Outcome B :=
  match x with
  | Ok a => f a
  | Raised e => Raised e
  end.

Definition chain3 (f g h : list Row -> Outcome (list Row)) (df : list Row)
    : Outcome (list Row) :=
  bind (bind (f df) g) h.

(** The three filters as steps of a chain, for fixed parameters. *)
Definition by_position (lo hi : Z) (df : list Row) : Outcome (list Row) :=
  Ok (position_filter lo hi df).

Definition by_state (state_sel : list string) (df : list Row) : Outcome (list Row) :=
  Ok (state_filter state_sel df).

Definition by_keyword (lib : TextLib) (column : ColumnKind) (text : string)
    (df : list Row) : Outcome (list Row) :=
  keyword_step lib column text df.

(** ** Shares *)

(** Rounding to the nearest integer, ties to even ([numpy.rint]). *)
Definition rint (q : Q) : Z :=
  let n := Qnum q in
  let d := Zpos (Qden q) in
  let f := n / d in
  match (2 * (n mod d) ?= d) with
  | Lt => f
  | Gt => f + 1
  | Eq => if Z.even f then f else f + 1
  end.

(** [Series.round(1)] on one value. *)
Definition round1 (q : Q) : Q := (rint (q * 10) # 10).

(** [(value / total * 100).round(1)] on one row. [None] is the result of
    dividing by a zero total, which float64 holds as NaN (0/0) and which
    raises nothing. *)
Definition share (value total : Z) : option Q :=
  if total =? 0 then None
  else Some (round1 (inject_Z value / inject_Z total * 100)).

(** [r] has one decimal place and is as near to [q] as such a value can
    be, whichever way a tie goes. *)
Definition rounded_to_one_decimal (q r : Q) : Prop :=
  exists k : Z, r = (k # 10)%Q /\ (Qabs (r - q) <= 1 # 20)%Q.

(** [Series.sum()] over shares; missing values are skipped. *)
Definition share_sum (l : list (option Q)) : Q :=
  fold_right (fun x acc => match x with Some q => q + acc | None => acc end)%Q 0%Q l.

Definition zsum (l : list Z) : Z := fold_right Z.add 0 l.

(** ** Grouping and sorting *)

Section Sorting.

Context {A : Type}.

(** Stable insertion sort for the order [leb]. *)
Fixpoint insert_sorted (leb : A -> A -> bool) (x : A) (l : list A) : list A :=
  match l with
  | [] => [x]
  | y :: l' => if leb x y then x :: l else y :: insert_sorted leb x l'
  end.

Fixpoint isort (leb : A -> A -> bool) (l : list A) : list A :=
  match l with
  | [] => []
  | x :: l' => insert_sorted leb x (isort leb l')
  end.

End Sorting.

Section Frame.

Context {A K : Type} (K_dec : forall x y : K, {x = y} + {x <> y}).
Variable K_leb : K -> K -> bool.

(** The keys of [df.groupby(key)]: each distinct key once, in key order. *)
Definition group_keys (key : A -> K) (df : list A) : list K :=
  isort K_leb (nodup K_dec (map key df)).

(** The rows of the group of key [k]. *)
Definition group (key : A -> K) (df : list A) (k : K) : list A :=
  filter (fun a => if K_dec (key a) k then true else false) df.

End Frame.

Definition pair_dec (x y : string * string) : {x = y} + {x <> y}.
Proof. decide equality; apply string_dec. Defined.

(** Order of the keys of a two-column [groupby]: by the first column, then
    by the second. *)
Definition pair_leb (x y : string * string) : bool :=
  match String.compare (fst x) (fst y) with
  | Lt => true
  | Gt => false
  | Eq => String.leb (snd x) (snd y)
  end.

(** ** Overview: classification share by state *)

Inductive Metric : Type :=
| RawCount
| PositionWeighted.

(** One row of [summary] after the merge and the [share] column. *)
Record SummaryRow : Type := mkSummary {
  sum_state : string;
  sum_classification : string;
  sum_value : Z;
  sum_total : Z;
  sum_share : option Q
}.

Definition state_class (r : Row) : string * string :=
  (state r, classification r).

(** What the selected metric aggregates over one group: [.size()] or
    [["position_weight"].sum()]. *)
Definition group_value (m : Metric) (g : list Row) : Z :=
  match m with
  | RawCount => Z.of_nat (List.length g)
  | PositionWeighted => zsum (map position_weight g)
  end.

(** What one record adds to its group under the metric. *)
Definition metric_weight (m : Metric) (r : Row) : Z :=
  match m with
  | RawCount => 1
  | PositionWeighted => position_weight r
  end.

(** The records of one state, and of one (state, classification) pair. *)
Definition of_state (s : string) (df : list Row) : list Row :=
  filter (fun r => String.eqb (state r) s) df.

Definition of_state_class (s c : string) (df : list Row) : list Row :=
  filter (fun r => String.eqb (state r) s && String.eqb (classification r) c) df.

Definition summary_key (x : SummaryRow) : string * string :=
  (sum_state x, sum_classification x).

(** [df_filt.groupby(["state", "classification"])...reset_index(name=...)]:
    rows (state, classification, value). *)
Definition grouped (m : Metric) (df : list Row) : list (string * string * Z) :=
  map (fun k => (k, group_value m (group pair_dec state_class df k)))
      (group_keys pair_dec pair_leb state_class df).

Definition row_state (x : string * string * Z) : string := fst (fst x).

(** The sum of the value column over the rows of [summary] whose first
    key column is [s]. *)
Definition group_total (summary : list (string * string * Z)) (s : string) : Z :=
  zsum (map snd (group string_dec row_state summary s)).

(** [summary.groupby("state")[value].sum().reset_index(name="total")]. *)
Definition state_totals (summary : list (string * string * Z)) : list (string * Z) :=
  map (fun s => (s, group_total summary s))
      (group_keys string_dec String.leb row_state summary).

(** [summary.merge(total, on="state")]: the inner join, in the order of
    [summary]. *)
Definition merge (summary : list (string * string * Z)) (total : list (string * Z))
    : list (string * string * Z * Z) :=
  flat_map
    (fun x => map (fun t => (x, snd t))
                  (filter (fun t => String.eqb (fst t) (row_state x)) total))
    summary.

Definition with_share (x : string * string * Z * Z) : SummaryRow :=
  let '(s, c, v, t) := x in
  {| sum_state := s; sum_classification := c; sum_value := v; sum_total := t;
     sum_share := share v t |}.

(** The [summary] dataframe of the Overview view (lines 40-57). *)
Definition overview (m : Metric) (df : list Row) : list SummaryRow :=
  let summary := grouped m df in
  map with_share (merge summary (state_totals summary)).

(** The rows of [summary] of one state. *)
Definition rows_of_state (s : string) (summary : list SummaryRow) : list SummaryRow :=
  filter (fun x => String.eqb (sum_state x) s) summary.

(** ** Brand Breakdown *)

(** [df_filt.assign(brand=df_filt[col].str.split(", ")).explode("brand")],
    the [brand] column: a missing cell stays one missing entry. *)
Definition explode_brands (col : Row -> option string) (df : list Row)
    : list (option string) :=
  flat_map
    (fun r => match col r with
              | Some s => map Some (Str.split_comma_space s)
              | None => [None]
              end)
    df.

(** [.query("brand != ''")]: a missing entry differs from the empty name. *)
Definition query_nonempty (brands : list (option string)) : list (option string) :=
  filter (fun b => match b with
                   | Some s => negb (Str.is_empty s)
                   | None => true
                   end)
         brands.

(** The entries [groupby("brand")] groups: it leaves missing keys out. *)
Definition present_names (brands : list (option string)) : list string :=
  flat_map (fun b => match b with Some s => [s] | None => [] end) brands.

(** The brand names counted for one column. *)
Definition brand_names (col : Row -> option string) (df : list Row) : list string :=
  present_names (query_nonempty (explode_brands col df)).

(** The pieces of every present cell of the column, record after record. *)
Definition brand_pieces (col : Row -> option string) (df : list Row) : list string :=
  flat_map (fun r => match col r with
                     | Some s => Str.split_comma_space s
                     | None => []
                     end)
           df.

(** [.groupby("brand").size().reset_index(name="count")]. *)
Definition brand_sizes (names : list string) : list (string * nat) :=
  map (fun b => (b, List.length (group string_dec (fun n => n) names b)))
      (group_keys string_dec String.leb (fun n : string => n) names).

(** [.sort_values("count", ascending=False)]. pandas leaves the order of
    equal counts to the sorting algorithm; here they keep their order. *)
Definition sort_by_count_desc (t : list (string * nat)) : list (string * nat) :=
  isort (fun x y => (snd y <=? snd x)%nat) t.

(** The [real] and [sweeps] tables (lines 96-105 and 123-132). *)
Definition brand_breakdown (col : Row -> option string) (df : list Row)
    : list (string * nat) :=
  firstn 25 (sort_by_count_desc (brand_sizes (brand_names col df))).

(** ** Keyword Detail *)

(** One row of [kw_summary]. *)
Record KwRow : Type := mkKw {
  kw_keyword : string;
  kw_classification : string;
  kw_weight : Z;
  kw_share : option Q
}.

(** [df_filt.dropna(subset=["keyword", "position_weight"])], each row with
    its keyword; [position_weight] is never missing. *)
Definition dropna_keyword (df : list Row) : list (string * Row) :=
  flat_map (fun r => match keyword r with Some k => [(k, r)] | None => [] end) df.

Definition kw_class (x : string * Row) : string * string :=
  (fst x, classification (snd x)).

(** [df_kw.groupby(["keyword", "classification"])["position_weight"].sum()]. *)
Definition kw_grouped (df : list Row) : list (string * string * Z) :=
  let df_kw := dropna_keyword df in
  map (fun k => (k, zsum (map (fun x => position_weight (snd x))
                              (group pair_dec kw_class df_kw k))))
      (group_keys pair_dec pair_leb kw_class df_kw).

(** [kw_summary.groupby("keyword")["weight"].transform("sum")] on the row
    of keyword [k]. *)
Definition kw_total (summary : list (string * string * Z)) (k : string) : Z :=
  group_total summary k.

(** The [kw_summary] dataframe with its [share] column (lines 168-179). *)
Definition kw_summary (df : list Row) : list KwRow :=
  let summary := kw_grouped df in
  map (fun x => let '(k, c, w) := x in
                {| kw_keyword := k; kw_classification := c; kw_weight := w;
                   kw_share := share w (kw_total summary k) |})
      summary.

(** The rows of [kw_summary] of one keyword. *)
Definition rows_of_keyword (k : string) (summary : list KwRow) : list KwRow :=
  group string_dec kw_keyword summary k.

(** ** Sidebar *)

(** [sorted(df["state"].unique())] (line 25): the options of the state
    multiselect, and its default selection (line 26). *)
Definition states (df : list Row) : list string :=
  isort String.leb (nodup string_dec (map state df)).

(** The frame [df_filt] when the sidebar is left as it is: every state
    selected, no keyword. *)
Definition default_filters (lo hi : Z) (df : list Row) : option (list Row) :=
  let df_pos := position_filter lo hi df in
  keyword_filter (keyword_sel EmptyString) (state_filter (states df_pos) df_pos).

(** ** Orders of the display sorts *)

(** A missing value sorts after every present one ([na_position="last"]),
    whatever the direction of the column. *)
Definition none_last {A : Type} (cmp : A -> A -> comparison) (x y : option A)
    : comparison :=
  match x, y with
  | Some a, Some b => cmp a b
  | Some _, None => Lt
  | None, Some _ => Gt
  | None, None => Eq
  end.

(** [ascending=False] on a column. *)
Definition descending {A : Type} (cmp : A -> A -> comparison) (x y : A) : comparison :=
  cmp y x.

(** The order of a sort on several columns: the first column that tells
    two rows apart decides. *)
Definition then_by {A : Type} (c1 c2 : A -> A -> comparison) (x y : A) : comparison :=
  match c1 x y with
  | Eq => c2 x y
  | c => c
  end.

(** A column as an order on rows. *)
Definition on_column {A B : Type} (f : A -> B) (cmp : B -> B -> comparison)
    (x y : A) : comparison :=
  cmp (f x) (f y).

(** What makes a three-way comparison an order with ties. *)
Class OrderCmp {A : Type} (cmp : A -> A -> comparison) : Prop := {
  cmp_antisym : forall x y, cmp y x = CompOpp (cmp x y);
  cmp_eq_l : forall x y z, cmp x y = Eq -> cmp x z = cmp y z;
  cmp_lt_trans : forall x y z, cmp x y = Lt -> cmp y z = Lt -> cmp x z = Lt
}.

Definition leb_of {A : Type} (cmp : A -> A -> comparison) (x y : A) : bool :=
  match cmp x y with
  | Gt => false
  | _ => true
  end.

(** [DataFrame.sort_values] on several columns: stable. *)
Definition sort_values {A : Type} (cmp : A -> A -> comparison) (df : list A) : list A :=
  isort (leb_of cmp) df.

(** ** Overview and Keyword Detail: the tables shown *)

(** [summary[["state", "classification", "share"]]
      .sort_values(["state", "share"], ascending=[True, False])]
    (lines 81-85). *)
Definition shown (x : SummaryRow) : string * string * option Q :=
  (sum_state x, sum_classification x, sum_share x).

Definition overview_order : string * string * option Q ->
                            string * string * option Q -> comparison :=
  then_by (on_column (fun x => fst (fst x)) String.compare)
          (on_column snd (none_last (descending Qcompare))).

Definition overview_display (m : Metric) (df : list Row)
    : list (string * string * option Q) :=
  sort_values overview_order (map shown (overview m df)).

(** [kw_summary.sort_values(["keyword", "share"], ascending=[True, False])]
    (lines 213-216). *)
Definition kw_order : KwRow -> KwRow -> comparison :=
  then_by (on_column kw_keyword String.compare)
          (on_column kw_share (none_last (descending Qcompare))).

Definition kw_display (df : list Row) : list KwRow :=
  sort_values kw_order (kw_summary df).

(** The records of one keyword, and of one (keyword, classification) pair. *)
Definition has_keyword (k : string) (r : Row) : bool :=
  match keyword r with
  | Some k' => String.eqb k' k
  | None => false
  end.

Definition of_keyword (k : string) (df : list Row) : list Row :=
  filter (has_keyword k) df.

Definition of_keyword_class (k c : string) (df : list Row) : list Row :=
  filter (fun r => has_keyword k r && String.eqb (classification r) c) df.

Definition kw_key (x : KwRow) : string * string :=
  (kw_keyword x, kw_classification x).


(** ** Keyword Detail: the sanity check and what the view shows *)

(** The float64 arithmetic of the sanity check (lines 206-210): [float_sum]
    is what [groupby("keyword")["share"].sum()] gives for the shares of one
    keyword, missing shares skipped, and [float_limit] is the float64 that
    the literal [100.1] denotes. Both are rationals, as every float64 is. *)
Record FloatCheck : Type := mkFloatCheck {
  float_sum : list (option Q) -> Q;
  float_limit : Q
}.

(** The rounded shares of keyword [k] added as numbers, a missing share
    counting for nothing. *)
Definition summed_share (k : string) (summary : list KwRow) : Q :=
  fold_right Qplus 0%Q
    (map (fun x => match kw_share x with Some q => q | None => 0%Q end)
         (filter (fun x => String.eqb (kw_keyword x) k) summary)).

(** The float64 results are within 0.01 of the numbers they stand for. *)
Definition accurate (fc : FloatCheck) (summary : list KwRow) : Prop :=
  (forall k,
     (Qabs (float_sum fc (map kw_share
                              (filter (fun x => String.eqb (kw_keyword x) k) summary))
            - summed_share k summary) <= 1 # 100)%Q) /\
  (Qabs (float_limit fc - (1001 # 10)) <= 1 # 100)%Q.

(** [kw_summary.groupby("keyword")["share"].sum().reset_index(name="sum_share")
    .sort_values("sum_share", ascending=False)]. *)
Definition check (fc : FloatCheck) (summary : list KwRow) : list (string * Q) :=
  isort (fun x y => Qle_bool (snd y) (snd x))
    (map (fun k => (k, float_sum fc (map kw_share (rows_of_keyword k summary))))
         (group_keys string_dec String.leb kw_keyword summary)).

(** [sum_share > 100.1] on one row of [check]. *)
Definition exceeds (fc : FloatCheck) (sum_share : Q) : bool :=
  match (sum_share ?= float_limit fc)%Q with Gt => true | _ => false end.

(** [any(check["sum_share"] > 100.1)]. *)
Definition rounding_warning (fc : FloatCheck) (summary : list KwRow) : bool :=
  existsb (fun x => exceeds fc (snd x)) (check fc summary).

(** What the Keyword Detail view puts on the page, in order: [st.header],
    [st.subheader], [st.altair_chart] of [kw_summary], [st.warning] when the
    check finds a keyword, [st.dataframe] of the sorted [kw_summary]. *)
Inductive Shown : Type :=
| ShowHeader
| ShowSubheader
| ShowChart (data : list KwRow)
| ShowWarning
| ShowTable (rows : list KwRow).

(** The view on the table [kw_summary] (lines 181-216). *)
Definition keyword_detail_view (fc : FloatCheck) (summary : list KwRow) : list Shown :=
  [ShowHeader; ShowSubheader; ShowChart summary]
  ++ (if rounding_warning fc summary then [ShowWarning] else [])
  ++ [ShowTable (sort_values kw_order summary)].

(** Lines 161-216. *)
Definition keyword_detail (fc : FloatCheck) (df : list Row) : list Shown :=
  keyword_detail_view fc (kw_summary df).

(** Every share of the table has one decimal place or is missing. *)
Definition one_decimal_shares (summary : list KwRow) : Prop :=
  forall x, In x summary ->
    kw_share x = None \/ exists m : Z, kw_share x = Some (m # 10)%Q.

Definition is_warning (s : Shown) : bool :=
  match s with
  | ShowWarning => true
  | _ => false
  end.

(** The arithmetic without rounding error. *)
Definition exact_check : FloatCheck :=
  {| float_sum := share_sum; float_limit := (1001 # 10)%Q |}.

(** ** Combined leaderboard *)

(** [real.assign(type="Real")], [sweeps.assign(type="Sweeps")]. *)
Definition assign_type (ty : string) (t : list (string * nat))
    : list (string * nat * string) :=
  map (fun x => (fst x, snd x, ty)) t.

Definition entry_count (x : string * nat * string) : nat := snd (fst x).

(** [pd.concat([...]).sort_values("count", ascending=False)
      .reset_index(drop=True)] (lines 149-156); rows of equal count keep
    their order here, as in [sort_by_count_desc]. *)
Definition combined (df : list Row) : list (string * nat * string) :=
  isort (fun x y => (entry_count y <=? entry_count x)%nat)
        (assign_type "Real" (brand_breakdown real_brands df) ++
         assign_type "Sweeps" (brand_breakdown sweeps_brands df)).

(** ** SERP Table *)

(** The columns [state], [keyword], [position] in ascending order. *)
Definition serp_order : Row -> Row -> comparison :=
  then_by (on_column state String.compare)
    (then_by (on_column keyword (none_last String.compare))
             (on_column position (none_last Z.compare))).

(** [df_filt[[...]].sort_values(["state", "keyword", "position"])] (lines
    223-226); the eight columns selected are the fields of a row. *)
Definition serp_table (df : list Row) : list Row :=
  sort_values serp_order df.

(** Whether the string does not start with white space. *)
Definition no_leading_space (s : string) : bool :=
  match s with
  | EmptyString => true
  | String c _ => negb (Str.is_space c)
  end.

(** ** The comma-space separator *)

Definition comma_space : list Re.Atom := Re.literal ", ".

(** Whether the piece has the separator in it. *)
Definition has_separator (p : string) : bool := Re.search comma_space p.

Fixpoint ends_with_comma (s : string) : bool :=
  match s with
  | EmptyString => false
  | String c EmptyString => Ascii.eqb c ","%char
  | String _ s' => ends_with_comma s'
  end.

Definition starts_with_space (s : string) : bool :=
  match s with
  | String c _ => Ascii.eqb c " "%char
  | EmptyString => false
  end.

(** ** Sample inputs *)

Definition sample_raw (st kw : option string) (pos : option Z)
    (cl rb sb : option string) : RawRow :=
  {| raw_state := st; raw_keyword := kw; raw_position := pos;
     raw_classification := cl; raw_url := None;
     raw_real_brands := rb; raw_sweeps_brands := sb |}.

(** The columns of [output/brand_classifications_enriched.csv]. *)
Definition all_columns : list string :=
  ["state"; "keyword"; "position"; "classification"; "url"; "real_brands";
   "sweeps_brands"].

Definition full_csv (rows : list RawRow) : Csv :=
  {| csv_columns := all_columns; csv_rows := rows |}.

(** Rows with a missing cell in every defaulted column. *)
Definition gap_rows : list RawRow :=
  [ sample_raw (Some "CA") (Some "online casino") (Some 3) (Some "Real") None None;
    sample_raw None (Some "online casino") None None None None ].

(** A file that has no [classification] column. *)
Definition no_classification_csv : Csv :=
  {| csv_columns := ["state"; "keyword"; "position"; "url"; "real_brands";
                     "sweeps_brands"];
     csv_rows :=
       [ sample_raw (Some "CA") (Some "online casino") (Some 3) None None None;
         sample_raw (Some "NJ") (Some "online casino") (Some 1) None None None ] |}.

(** Five records of one state whose four classifications weigh 1, 1, 1 and
    13 out of 16: every exact share ends in 25 hundredths. *)
Definition tie_rows : list RawRow :=
  [ sample_raw (Some "CA") (Some "k1") (Some 10) (Some "Real") None None;
    sample_raw (Some "CA") (Some "k1") (Some 10) (Some "Sweeps") None None;
    sample_raw (Some "CA") (Some "k1") (Some 10) (Some "Both") None None;
    sample_raw (Some "CA") (Some "k1") (Some 1) (Some "Other") None None;
    sample_raw (Some "CA") (Some "k1") (Some 8) (Some "Other") None None ].


(** Three records whose two brand columns hold the same names, in the
    other order of records; the third holds an empty and a missing cell. *)
Definition brand_rows : list RawRow :=
  [ sample_raw (Some "CA") (Some "k1") (Some 1) (Some "Real") (Some "A, B, A") (Some "B");
    sample_raw (Some "CA") (Some "k1") (Some 2) (Some "Real") (Some "B") (Some "A, B, A");
    sample_raw (Some "CA") (Some "k1") (Some 3) (Some "Real") (Some EmptyString) None ].

(** One keyword whose four classifications weigh 3, 3, 3 and 7 out of 16:
    the exact shares 18.75, 18.75, 18.75 and 43.75 all round up. *)
Definition drift_rows : list RawRow :=
  [ sample_raw (Some "CA") (Some "k1") (Some 8) (Some "Real") None None;
    sample_raw (Some "CA") (Some "k1") (Some 8) (Some "Sweeps") None None;
    sample_raw (Some "CA") (Some "k1") (Some 8) (Some "Both") None None;
    sample_raw (Some "CA") (Some "k1") (Some 4) (Some "Other") None None ].

(** * Properties *)

(** ** Loader *)

Lemma load_data_rows (csv : Csv) (df : list Row) :
  load_data (Some csv) = Loaded df -> df = map load_row (csv_rows csv).
Proof.
  unfold load_data. intros H.
  destruct (negb (has_column "classification" csv)); [discriminate|].
  destruct (negb (has_column "state" csv)); [discriminate|].
  destruct (negb (has_column "position" csv)); [discriminate|].
  now inversion H.
Qed.

Lemma loaded_row_weight (csv : Csv) (df : list Row) (r : Row) :
  load_data (Some csv) = Loaded df -> In r df ->
  position_weight r = weight_of_position (position r).
Proof.
  intros Hload Hin. apply load_data_rows in Hload. subst df.
  apply in_map_iff in Hin. destruct Hin as [raw [<- _]]. reflexivity.
Qed.



(** C8 (amended). A readable CSV that has the classification, state and
    position columns always loads, row for row: a missing classification
    becomes Other, a missing state becomes Unknown, a missing position gives
    weight 0, and the cells that are present are kept. *)
Theorem load_data_defaults (csv : Csv) :
  has_column "classification" csv = true ->
  has_column "state" csv = true ->
  has_column "position" csv = true ->
  exists df, load_data (Some csv) = Loaded df /\
    List.length df = List.length (csv_rows csv) /\
    forall i raw, nth_error (csv_rows csv) i = Some raw ->
      exists r, nth_error df i = Some r /\
        (raw_classification raw = None -> classification r = "Other") /\
        (raw_state raw = None -> state r = "Unknown") /\
        (raw_position raw = None -> position_weight r = 0) /\
        (forall c, raw_classification raw = Some c -> classification r = c) /\
        (forall s, raw_state raw = Some s -> state r = s) /\
        position r = raw_position raw /\ keyword r = raw_keyword raw.
Proof.
  intros Hc Hs Hp. exists (map load_row (csv_rows csv)).
  split; [unfold load_data; rewrite Hc, Hs, Hp; reflexivity|].
  split; [apply length_map|].
  intros i raw Hi. exists (load_row raw).
  split; [now apply map_nth_error|].
  unfold load_row; cbn.
  repeat split; intros; try match goal with H : _ = _ |- _ => rewrite H end;
    reflexivity.
Qed.

Lemma load_data_defaults_witness :
  exists df, load_data (Some (full_csv gap_rows)) = Loaded df /\
    List.length df = List.length (csv_rows (full_csv gap_rows)) /\
    forall i raw, nth_error (csv_rows (full_csv gap_rows)) i = Some raw ->
      exists r, nth_error df i = Some r /\
        (raw_classification raw = None -> classification r = "Other") /\
        (raw_state raw = None -> state r = "Unknown") /\
        (raw_position raw = None -> position_weight r = 0) /\
        (forall c, raw_classification raw = Some c -> classification r = c) /\
        (forall s, raw_state raw = Some s -> state r = s) /\
        position r = raw_position raw /\ keyword r = raw_keyword raw.
Proof.
  apply (load_data_defaults (full_csv gap_rows)); reflexivity.
Defined.

(** C8, as stated, fails when the gap is a column: in a file without the
    [classification] column every record misses its classification, and
    the load fails with a [KeyError] instead of loading them as Other. *)
Lemma load_fails_on_absent_column :
  has_column "classification" no_classification_csv = false /\
  Forall (fun raw => raw_classification raw = None) (csv_rows no_classification_csv) /\
  load_data (Some no_classification_csv) = KeyError "classification" /\
  ~ exists df, load_data (Some no_classification_csv) = Loaded df.
Proof.
  split; [reflexivity|]. split; [repeat constructor|]. split; [reflexivity|].
  intros [df H]. discriminate H.
Qed.

(** ** Filters *)

Lemma filter_twice {A : Type} (f : A -> bool) (l : list A) :
  filter f (filter f l) = filter f l.
Proof.
  induction l as [|a l IH]; simpl; [reflexivity|].
  destruct (f a) eqn:E; simpl; [rewrite E, IH|]; auto.
Qed.

Lemma filter_swap {A : Type} (f g : A -> bool) (l : list A) :
  filter f (filter g l) = filter g (filter f l).
Proof.
  induction l as [|a l IH]; simpl; [reflexivity|].
  destruct (g a) eqn:G, (f a) eqn:F; simpl; rewrite ?G, ?F, IH; reflexivity.
Qed.

Lemma position_filter_bounds (lo hi : Z) (df : list Row) (r : Row) :
  In r (position_filter lo hi df) ->
  In r df /\ exists p, position r = Some p /\ lo <= p <= hi.
Proof.
  unfold position_filter. rewrite filter_In. intros [Hin Hb].
  split; [exact Hin|].
  destruct (position r) as [p|]; simpl in Hb; [|discriminate].
  apply andb_true_iff in Hb. destruct Hb as [H1 H2].
  apply Z.leb_le in H1, H2. exists p. split; [reflexivity | lia].
Qed.

(** C2. Every record the position range filter keeps was in its input and
    has a present position within the inclusive range; a record without a
    position is never kept. *)
Theorem position_filter_in_range (lo hi : Z) (df : list Row) (r : Row) :
  In r (position_filter lo hi df) ->
  In r df /\ (exists p, position r = Some p /\ lo <= p <= hi) /\ position r <> None.
Proof.
  intros H. apply position_filter_bounds in H. destruct H as [Hin [p [Hp Hr]]].
  split; [exact Hin|]. split; [now exists p | congruence].
Qed.

Lemma position_filter_in_range_witness :
  let r := load_row (sample_raw (Some "CA") (Some "online casino") (Some 3)
                                (Some "Real") None None) in
  In r (map load_row gap_rows) /\
  (exists p, position r = Some p /\ 1 <= p <= 4) /\ position r <> None.
Proof.
  apply (position_filter_in_range 1 4 (map load_row gap_rows)).
  simpl. left. reflexivity.
Defined.

Lemma keyword_filter_cases (ks : string) (df : list Row) :
  (keyword_filter ks df = None /\ forall d, keyword_filter ks d = None) \/
  (exists f : Row -> bool, forall d, keyword_filter ks d = Some (filter f d)).
Proof.
  unfold keyword_filter. destruct (Str.is_empty ks).
  - right. exists (fun _ => true). intros d. f_equal.
    induction d as [|a d IH]; simpl; congruence.
  - destruct (Re.compile ks) as [re|].
    + right. eexists. intros d. reflexivity.
    + left. split; [reflexivity | intros d; reflexivity].
Qed.

Lemma keyword_step_cases (lib : TextLib) (column : ColumnKind) (text : string) :
  (exists e, forall d, keyword_step lib column text d = Raised e) \/
  (exists f : Row -> bool,
     forall d, keyword_step lib column text d = Ok (filter f d)).
Proof.
  unfold keyword_step. cbv zeta.
  destruct (Str.is_empty (py_lower lib (py_strip lib text))).
  - right. exists (fun _ => true). intros d. f_equal.
    induction d as [|a d IH]; simpl; congruence.
  - destruct column.
    + left. eexists. reflexivity.
    + left. eexists. reflexivity.
    + destruct (re_compile lib (py_lower lib (py_strip lib text))) as [found|].
      * right. eexists. intros d. reflexivity.
      * left. eexists. reflexivity.
Qed.

Lemma keyword_step_ok (lib : TextLib) (column : ColumnKind) (text : string)
    (df : list Row) :
  (exists out, keyword_step lib column text df = Ok out) <->
  py_lower lib (py_strip lib text) = EmptyString \/
  (column = TextColumn /\
   re_compile lib (py_lower lib (py_strip lib text)) <> None).
Proof.
  unfold keyword_step. cbv zeta.
  destruct (py_lower lib (py_strip lib text)) as [|c ks] eqn:E; cbn [Str.is_empty].
  - split; [now left | intros _; now eexists].
  - destruct column.
    + split; [intros [out H]; discriminate H
             | intros [H|[H _]]; discriminate H].
    + split; [intros [out H]; discriminate H
             | intros [H|[H _]]; discriminate H].
    + destruct (re_compile lib (String c ks)) as [found|].
      * split; [intros _; right; split; [reflexivity | discriminate]
               | intros _; now eexists].
      * split; [intros [out H]; discriminate H
               | intros [H|[_ H]]; [discriminate H | now contradiction H]].
Qed.

(** C6. For fixed parameters, whatever the keyword input, the text library
    and the keyword column, each of the three filters gives the same result
    applied twice as applied once, and the three filters chained in any of
    the six orders give the same result, the one of the script: the same
    frame, or the same error when line 33 raises. The chain gives a frame
    exactly when the normalised keyword input is empty, or the keyword
    column holds text and the pattern compiles. *)
Theorem filters_idempotent_and_commute (lib : TextLib) (column : ColumnKind)
    (lo hi : Z) (state_sel : list string) (text : string) (df : list Row) :
  let P := by_position lo hi in
  let S := by_state state_sel in
  let K := by_keyword lib column text in
  bind (P df) P = P df /\
  bind (S df) S = S df /\
  bind (K df) K = K df /\
  chain3 P S K df =
    keyword_step lib column text
      (state_filter state_sel (position_filter lo hi df)) /\
  chain3 P K S df = chain3 P S K df /\
  chain3 S P K df = chain3 P S K df /\
  chain3 S K P df = chain3 P S K df /\
  chain3 K P S df = chain3 P S K df /\
  chain3 K S P df = chain3 P S K df /\
  ((exists out, chain3 P S K df = Ok out) <->
   py_lower lib (py_strip lib text) = EmptyString \/
   (column = TextColumn /\
    re_compile lib (py_lower lib (py_strip lib text)) <> None)).
Proof.
  cbv zeta. unfold chain3, by_position, by_state, by_keyword,
    position_filter, state_filter. cbn [bind].
  split; [now rewrite filter_twice|]. split; [now rewrite filter_twice|].
  split; [|split; [reflexivity|]].
  - destruct (keyword_step_cases lib column text) as [[e He]|[f Hf]].
    + rewrite He. cbn [bind]. reflexivity.
    + rewrite Hf. cbn [bind]. rewrite Hf. now rewrite filter_twice.
  - split; [|split; [|split; [|split; [|split]]]];
      try apply keyword_step_ok;
      destruct (keyword_step_cases lib column text) as [[e He]|[f Hf]];
      rewrite ?He, ?Hf; cbn [bind]; rewrite ?He, ?Hf; cbn [bind];
      try reflexivity; f_equal;
      set (FP := fun r : Row => between lo hi (position r));
      set (FS := fun r : Row => isin state_sel (state r));
      repeat first [ rewrite (filter_swap FS f)
                   | rewrite (filter_swap FP f)
                   | rewrite (filter_swap FP FS) ];
      reflexivity.
Qed.

(** ** Keyword filter *)

Lemma compile_plain (pat : string) :
  Re.is_plain pat = true -> Re.compile pat = Some (Re.literal pat).
Proof.
  induction pat as [|c pat IH]; simpl; [reflexivity|].
  intros H. apply andb_true_iff in H. destruct H as [H Hp].
  apply andb_true_iff in H. destruct H as [Hs Hd].
  apply negb_true_iff in Hs, Hd. rewrite Hs, Hd, (IH Hp). reflexivity.
Qed.

Lemma match_here_literal (n s : string) :
  Re.match_here (Re.literal n) s = true <-> exists r, s = n ++ r.
Proof.
  revert s. induction n as [|c n IH]; intros s; simpl.
  - split; [intros _; exists s; reflexivity | reflexivity].
  - destruct s as [|d s].
    + split; [discriminate | intros [r Hr]; discriminate].
    + rewrite andb_true_iff, IH, Ascii.eqb_eq. split.
      * intros [-> [r ->]]. exists r. reflexivity.
      * intros [r Hr]. injection Hr as -> ->. split; [reflexivity | now exists r].
Qed.

Lemma search_literal (n s : string) :
  Re.search (Re.literal n) s = true <-> Str.contains s n.
Proof.
  unfold Str.contains. induction s as [|d s IH].
  - cbn [Re.search]. rewrite orb_false_r, match_here_literal. split.
    + intros [r Hr]. exists EmptyString, r. exact Hr.
    + intros [l [r Hr]]. destruct l; [now exists r | discriminate].
  - cbn [Re.search]. rewrite orb_true_iff, match_here_literal, IH. split.
    + intros [[r Hr] | [l [r Hr]]].
      * exists EmptyString, r. exact Hr.
      * exists (String d l), r. simpl. now rewrite Hr.
    + intros [l [r Hr]]. destruct l as [|c l].
      * left. now exists r.
      * right. injection Hr as _ Hr. now exists l, r.
Qed.

(** [keyword_filter] is [keyword_step] for [ascii_lib] on a keyword column
    that holds text. *)
Lemma keyword_filter_step (text : string) (df : list Row) :
  keyword_step ascii_lib TextColumn text df =
  match keyword_filter (keyword_sel text) df with
  | Some out => Ok out
  | None => Raised RegexError
  end.
Proof.
  unfold keyword_step, keyword_filter, keyword_sel. cbn [py_lower py_strip re_compile ascii_lib].
  destruct (Str.is_empty (Str.lower (Str.strip text))); [reflexivity|].
  destruct (Re.compile (Str.lower (Str.strip text))); cbn [option_map]; [|reflexivity].
  f_equal. apply filter_ext. intros r. now destruct (keyword r).
Qed.

Lemma ascii_lib_literal : literal_on_plain ascii_lib.
Proof.
  intros pat Hplain. cbn [re_compile ascii_lib].
  rewrite (compile_plain _ Hplain). cbn [option_map].
  eexists. split; [reflexivity|]. intros s. apply search_literal.
Qed.

(** C10 (amended). The keyword input is stripped, then lowercased. When
    the result is empty every record passes. When it is not empty, the
    filter raises [KeyError] on a frame without a keyword column and
    [AttributeError] on a keyword column whose cells are all missing. When
    it is not empty, has no special character of regular expressions, and
    the keyword column holds text, a record passes exactly when its keyword
    is present and its lowercased keyword contains the result as a
    substring, so a record without a keyword is left out. *)
Theorem keyword_filter_spec (lib : TextLib) (column : ColumnKind) (text : string)
    (df : list Row) :
  literal_on_plain lib ->
  let ks := py_lower lib (py_strip lib text) in
  (ks = EmptyString -> keyword_step lib column text df = Ok df) /\
  (ks <> EmptyString -> column = AbsentColumn ->
   keyword_step lib column text df = Raised (MissingColumn "keyword")) /\
  (ks <> EmptyString -> column = EmptyColumn ->
   keyword_step lib column text df = Raised AttributeError) /\
  (ks <> EmptyString -> column = TextColumn -> Re.is_plain ks = true ->
   exists out, keyword_step lib column text df = Ok out /\
     forall r, In r out <->
       In r df /\
       exists k, keyword r = Some k /\ Str.contains (py_lower lib k) ks).
Proof.
  intros Hlib. cbv zeta. unfold keyword_step. cbv zeta.
  destruct (py_lower lib (py_strip lib text)) as [|c ks] eqn:E; cbn [Str.is_empty].
  - split; [reflexivity|]. repeat split; intros H; congruence.
  - split; [discriminate|]. split; [intros _ ->; reflexivity|].
    split; [intros _ ->; reflexivity|].
    intros _ -> Hplain.
    destruct (Hlib _ Hplain) as [found [Hc Hfound]]. rewrite Hc.
    eexists. split; [reflexivity|].
    intros r. rewrite filter_In. destruct (keyword r) as [k|].
    + rewrite Hfound. split.
      * intros [Hin Hk]. split; [exact Hin | now exists k].
      * intros [Hin [k' [Hk Hk']]]. injection Hk as <-. now split.
    + split; [intros [_ H]; discriminate
             | intros [_ [k [Hk _]]]; discriminate].
Qed.

Lemma keyword_filter_spec_witness :
  let lib := ascii_lib in
  let column := keyword_column (full_csv gap_rows) in
  let text := "  Casino " in
  let df := map load_row gap_rows in
  let ks := py_lower lib (py_strip lib text) in
  (ks = EmptyString -> keyword_step lib column text df = Ok df) /\
  (ks <> EmptyString -> column = AbsentColumn ->
   keyword_step lib column text df = Raised (MissingColumn "keyword")) /\
  (ks <> EmptyString -> column = EmptyColumn ->
   keyword_step lib column text df = Raised AttributeError) /\
  (ks <> EmptyString -> column = TextColumn -> Re.is_plain ks = true ->
   exists out, keyword_step lib column text df = Ok out /\
     forall r, In r out <->
       In r df /\
       exists k, keyword r = Some k /\ Str.contains (py_lower lib k) ks).
Proof.
  apply (keyword_filter_spec ascii_lib (keyword_column (full_csv gap_rows))
           "  Casino " (map load_row gap_rows)).
  exact ascii_lib_literal.
Defined.

(** C10, as stated, fails in two ways. The input [a.c] is searched as a
    regular expression and keeps the keyword [abc], which does not contain
    [a.c]. And on a file whose keyword cells are all missing a non-empty
    input raises [AttributeError] instead of leaving the records out. *)
Lemma keyword_dot_matches_any_character :
  let raw := sample_raw (Some "CA") (Some "abc") (Some 1) (Some "Real") None None in
  let bare := sample_raw (Some "CA") None (Some 1) (Some "Real") None None in
  py_lower ascii_lib (py_strip ascii_lib "a.c") = "a.c" /\
  script_filters ascii_lib 1 10 ["CA"] "a.c" (Some (full_csv [raw]))
  = Ok [load_row raw] /\
  keyword (load_row raw) = Some "abc" /\
  ~ Str.contains (py_lower ascii_lib "abc") "a.c" /\
  script_filters ascii_lib 1 10 ["CA"] "abc" (Some (full_csv [bare]))
  = Raised AttributeError.
Proof.
  cbv zeta. split; [reflexivity|]. split; [reflexivity|]. split; [reflexivity|].
  split; [|reflexivity].
  intros H. apply search_literal in H. discriminate H.
Qed.

(** ** Sorting and grouping *)

Section SortingFacts.

Context {A : Type} (leb : A -> A -> bool).

Lemma insert_sorted_perm (x : A) (l : list A) :
  Permutation (insert_sorted leb x l) (x :: l).
Proof.
  induction l as [|y l IH]; simpl; [reflexivity|].
  destruct (leb x y); [reflexivity|].
  rewrite IH. apply perm_swap.
Qed.

Lemma isort_perm (l : list A) : Permutation (isort leb l) l.
Proof.
  induction l as [|x l IH]; simpl; [reflexivity|].
  rewrite insert_sorted_perm. now apply perm_skip.
Qed.

Hypothesis leb_total : forall x y, leb x y = true \/ leb y x = true.

Lemma insert_sorted_sorted (x : A) (l : list A) :
  Sorted (fun a b => leb a b = true) l ->
  Sorted (fun a b => leb a b = true) (insert_sorted leb x l).
Proof.
  induction l as [|y l IH]; intros Hs; simpl.
  - repeat constructor.
  - destruct (leb x y) eqn:E.
    + constructor; [exact Hs | constructor; exact E].
    + inversion Hs as [|? ? Hl Hhd]; subst. constructor; [now apply IH|].
      destruct l as [|z l]; simpl.
      * constructor. destruct (leb_total x y); congruence.
      * destruct (leb x z).
        -- constructor. destruct (leb_total x y); congruence.
        -- inversion Hhd; subst. now constructor.
Qed.

Lemma isort_sorted (l : list A) : Sorted (fun a b => leb a b = true) (isort leb l).
Proof.
  induction l as [|x l IH]; simpl; [constructor|].
  now apply insert_sorted_sorted.
Qed.

End SortingFacts.

Section FrameFacts.

Context {A K : Type} (K_dec : forall x y : K, {x = y} + {x <> y}).
Variable K_leb : K -> K -> bool.
Variable key : A -> K.

Lemma group_keys_In (df : list A) (k : K) :
  In k (group_keys K_dec K_leb key df) <-> exists a, In a df /\ key a = k.
Proof.
  unfold group_keys. split.
  - intros H. apply (Permutation_in _ (isort_perm K_leb _)) in H.
    apply nodup_In, in_map_iff in H. destruct H as [a [Ha Hin]]. now exists a.
  - intros [a [Hin Ha]].
    apply (Permutation_in _ (Permutation_sym (isort_perm K_leb _))).
    apply nodup_In, in_map_iff. now exists a.
Qed.

Lemma group_keys_NoDup (df : list A) : NoDup (group_keys K_dec K_leb key df).
Proof.
  unfold group_keys.
  apply (Permutation_NoDup (Permutation_sym (isort_perm K_leb _))).
  apply NoDup_nodup.
Qed.

Lemma group_In (df : list A) (k : K) (a : A) :
  In a (group K_dec key df k) <-> In a df /\ key a = k.
Proof.
  unfold group. rewrite filter_In.
  destruct (K_dec (key a) k); split; intros [H1 H2]; split; auto; discriminate.
Qed.

Lemma group_nonempty (df : list A) (k : K) :
  In k (group_keys K_dec K_leb key df) -> group K_dec key df k <> [].
Proof.
  intros H. apply group_keys_In in H. destruct H as [a [Hin Ha]].
  intros E. assert (Hg : In a (group K_dec key df k)) by now apply group_In.
  rewrite E in Hg. exact Hg.
Qed.

End FrameFacts.

(** ** Sums over groups *)

Lemma zsum_app (l1 l2 : list Z) : zsum (l1 ++ l2) = zsum l1 + zsum l2.
Proof. induction l1 as [|x l1 IH]; simpl; [reflexivity | rewrite IH; lia]. Qed.

Lemma zsum_filter_disjoint {A : Type} (w : A -> Z) (p q : A -> bool) (l : list A) :
  (forall a, In a l -> p a = true -> q a = false) ->
  zsum (map w (filter p l)) + zsum (map w (filter q l)) =
  zsum (map w (filter (fun a => p a || q a) l)).
Proof.
  induction l as [|a l IH]; intros Hd; simpl; [reflexivity|].
  assert (IH' := IH (fun b Hb => Hd b (or_intror Hb))).
  specialize (Hd a (or_introl eq_refl)).
  destruct (p a) eqn:P; simpl.
  - rewrite (Hd eq_refl). simpl. lia.
  - destruct (q a); simpl; lia.
Qed.

Lemma filter_ext_In {A : Type} (p q : A -> bool) (l : list A) :
  (forall a, In a l -> p a = q a) -> filter p l = filter q l.
Proof.
  induction l as [|a l IH]; intros H; simpl; [reflexivity|].
  rewrite (H a (or_introl eq_refl)), IH; [reflexivity|].
  intros b Hb. apply H. now right.
Qed.

Section GroupSums.

Context {A K : Type} (K_dec : forall x y : K, {x = y} + {x <> y}).
Variable key : A -> K.
Variable w : A -> Z.

(** The sums of the groups of distinct keys add up to the sum over the
    rows whose key is among them. *)
Lemma zsum_groups (ks : list K) (l : list A) :
  NoDup ks ->
  zsum (map (fun k => zsum (map w (group K_dec key l k))) ks) =
  zsum (map w (filter (fun a => if in_dec K_dec (key a) ks then true else false) l)).
Proof.
  induction 1 as [|k ks Hnotin Hnd IH]; simpl.
  - induction l as [|a l IHl]; simpl; congruence.
  - rewrite IH. unfold group. rewrite zsum_filter_disjoint.
    + f_equal. f_equal. apply filter_ext_In. intros a _.
      destruct (K_dec (key a) k) as [E|NE], (K_dec k (key a)) as [E'|NE'];
        try congruence; simpl; auto.
      destruct (in_dec K_dec (key a) ks); reflexivity.
    + intros a _ Ha. destruct (K_dec (key a) k) as [E|]; [|discriminate].
      destruct (in_dec K_dec (key a) ks) as [Hin|]; [|reflexivity].
      rewrite E in Hin. contradiction.
Qed.

End GroupSums.

(** A keyed table with distinct keys has one row for a key it holds. *)
Lemma filter_key_singleton {V : Type} (F : string -> V) (ks : list string) (s : string) :
  NoDup ks -> In s ks ->
  filter (fun t => String.eqb (fst t) s) (map (fun k => (k, F k)) ks) = [(s, F s)].
Proof.
  induction 1 as [|k ks Hnotin Hnd IH]; intros Hin; [contradiction|].
  simpl. destruct (String.eqb_spec k s) as [->|NE].
  - f_equal. clear IH Hin Hnd. induction ks as [|k' ks IH]; [reflexivity|].
    simpl. destruct (String.eqb_spec k' s) as [->|_].
    + exfalso. apply Hnotin. now left.
    + apply IH. intros H. apply Hnotin. now right.
  - destruct Hin as [E|Hin]; [congruence | now apply IH].
Qed.

(** ** Overview *)

Lemma group_value_weight (m : Metric) (g : list Row) :
  group_value m g = zsum (map (metric_weight m) g).
Proof.
  destruct m; simpl; [|reflexivity].
  induction g as [|r g IH]; [reflexivity|].
  change (Z.of_nat (S (List.length g)) = 1 + zsum (map (fun _ => 1) g)).
  unfold metric_weight in IH. simpl in IH. lia.
Qed.

Lemma filter_map_swap {A B : Type} (p : B -> bool) (f : A -> B) (l : list A) :
  filter p (map f l) = map f (filter (fun a => p (f a)) l).
Proof.
  induction l as [|a l IH]; simpl; [reflexivity|].
  destruct (p (f a)); simpl; now rewrite IH.
Qed.

Lemma NoDup_filter {A : Type} (p : A -> bool) (l : list A) :
  NoDup l -> NoDup (filter p l).
Proof.
  induction 1 as [|a l Hnotin Hnd IH]; simpl; [constructor|].
  destruct (p a); [|exact IH].
  constructor; [|exact IH]. rewrite filter_In. tauto.
Qed.

Lemma merge_totals (G : list (string * string * Z)) :
  merge G (state_totals G) = map (fun x => (x, group_total G (row_state x))) G.
Proof.
  unfold merge, state_totals.
  assert (H : forall l, (forall x, In x l -> In x G) ->
    flat_map (fun x => map (fun t => (x, snd t))
      (filter (fun t => String.eqb (fst t) (row_state x))
         (map (fun s => (s, group_total G s))
            (group_keys string_dec String.leb row_state G)))) l =
    map (fun x => (x, group_total G (row_state x))) l).
  { induction l as [|x l IH]; intros Hsub; [reflexivity|].
    cbn [flat_map map]. rewrite IH by (intros y Hy; apply Hsub; now right).
    rewrite filter_key_singleton.
    - reflexivity.
    - apply group_keys_NoDup.
    - apply group_keys_In. exists x. split; [apply Hsub; now left | reflexivity]. }
  apply H. auto.
Qed.

(** The Overview table, row by row of the group keys. *)
Lemma overview_rows (m : Metric) (df : list Row) :
  overview m df =
  map (fun k => with_share (k, group_value m (group pair_dec state_class df k),
                            group_total (grouped m df) (fst k)))
      (group_keys pair_dec pair_leb state_class df).
Proof.
  unfold overview. cbv zeta. rewrite merge_totals.
  unfold grouped at 2. rewrite !map_map. reflexivity.
Qed.

Lemma group_state_class (df : list Row) (s c : string) :
  group pair_dec state_class df (s, c) = of_state_class s c df.
Proof.
  unfold group, of_state_class. apply filter_ext_In. intros r _.
  unfold state_class.
  destruct (pair_dec (state r, classification r) (s, c)) as [E|NE].
  - injection E as -> ->. now rewrite !String.eqb_refl.
  - destruct (String.eqb_spec (state r) s), (String.eqb_spec (classification r) c);
      simpl; congruence.
Qed.

(** The total the merge attaches to a state is the metric over all the
    records of the state. *)
Lemma group_total_grouped (m : Metric) (df : list Row) (s : string) :
  group_total (grouped m df) s = group_value m (of_state s df).
Proof.
  unfold group_total, grouped, group at 1. rewrite filter_map_swap, map_map.
  cbn [snd]. rewrite group_value_weight.
  erewrite map_ext by (intros k; apply group_value_weight).
  rewrite (zsum_groups pair_dec state_class (metric_weight m)).
  - f_equal. f_equal. unfold of_state. apply filter_ext_In. intros r Hr.
    match goal with |- (if ?d then _ else _) = _ => destruct d as [Hin|Hnin] end.
    + apply filter_In in Hin. destruct Hin as [_ Hs]. unfold row_state in Hs.
      cbn [fst snd state_class] in Hs. destruct (string_dec (state r) s) as [->|]; [|discriminate].
      now rewrite String.eqb_refl.
    + destruct (String.eqb_spec (state r) s) as [E|NE]; [|reflexivity].
      exfalso. apply Hnin. apply filter_In. split.
      * apply group_keys_In. now exists r.
      * unfold row_state. cbn [fst snd state_class].
        destruct (string_dec (state r) s); congruence.
  - apply NoDup_filter, group_keys_NoDup.
Qed.

Lemma overview_keys (m : Metric) (df : list Row) :
  map summary_key (overview m df) = group_keys pair_dec pair_leb state_class df.
Proof.
  rewrite overview_rows, map_map. rewrite <- (map_id (group_keys _ _ _ _)) at 2.
  apply map_ext. intros [s c]. reflexivity.
Qed.

Lemma overview_state_total (m : Metric) (df : list Row) (s : string) :
  zsum (map sum_value (rows_of_state s (overview m df))) =
  group_total (grouped m df) s.
Proof.
  unfold overview, rows_of_state, group_total, group. cbv zeta.
  rewrite merge_totals, map_map, filter_map_swap, map_map.
  f_equal.
  rewrite (filter_ext_In _ (fun a => if string_dec (row_state a) s then true else false)).
  - apply map_ext. intros [[s' c] v]. reflexivity.
  - intros [[s' c] v] _. unfold row_state, with_share. cbn [fst snd sum_state].
    destruct (string_dec s' s) as [->|NE].
    + apply String.eqb_refl.
    + now apply String.eqb_neq.
Qed.


(** ** Rounding *)

(** [rint] is within one half of its argument. *)
Lemma rint_bound (q : Q) :
  - Zpos (Qden q) <= 2 * (rint q * Zpos (Qden q) - Qnum q) <= Zpos (Qden q).
Proof.
  unfold rint. destruct q as [n d]. cbn [Qnum Qden].
  assert (Hd : 0 < Zpos d) by reflexivity.
  pose proof (Z.div_mod n (Zpos d) ltac:(lia)) as Hdm.
  pose proof (Z.mod_pos_bound n (Zpos d) Hd) as Hr.
  set (f := n / Zpos d) in *. set (r := n mod Zpos d) in *.
  clearbody f r. subst n.
  destruct (2 * r ?= Zpos d) eqn:C.
  - apply Z.compare_eq in C. destruct (Z.even f); lia.
  - rewrite Z.compare_lt_iff in C. lia.
  - rewrite Z.compare_gt_iff in C. lia.
Qed.

(** Rounding to one decimal moves a value by at most 0.05. *)
Lemma round1_bound (x : Q) :
  (x - (1 # 20) <= round1 x <= x + (1 # 20))%Q.
Proof.
  unfold round1. pose proof (rint_bound (x * 10)) as H.
  destruct x as [a b]. cbn [Qmult Qnum Qden] in *.
  set (k := rint (a * 10 # b * 1)) in *. clearbody k.
  rewrite Pos.mul_1_r in H.
  unfold Qle, Qminus, Qplus, Qopp. cbn [Qnum Qden].
  rewrite !Pos2Z.inj_mul. split; nia.
Qed.


Lemma share_rounded (v t : Z) :
  (t = 0 -> share v t = None) /\
  (t <> 0 -> exists q, share v t = Some q /\
               rounded_to_one_decimal (inject_Z v / inject_Z t * 100) q).
Proof.
  unfold share. split.
  - intros ->. reflexivity.
  - intros Ht. destruct (Z.eqb_spec t 0); [contradiction|].
    eexists. split; [reflexivity|]. unfold rounded_to_one_decimal.
    exists (rint (inject_Z v / inject_Z t * 100 * 10)). split; [reflexivity|].
    fold (round1 (inject_Z v / inject_Z t * 100)).
    pose proof (round1_bound (inject_Z v / inject_Z t * 100)) as B.
    apply Qabs_Qle_condition.
    set (x := (inject_Z v / inject_Z t * 100)%Q) in *.
    set (r := round1 x) in *. lra.
Qed.

(** C4. The Overview table has exactly one row per (state, classification)
    pair present in the filtered records. The value of a row is the metric
    over the records of its pair: their number, or the sum of their
    position weights. Its total is the metric over the records of its
    state, which is the sum of the values of the rows of that state. Its
    share has one decimal place and lies within 0.05 of value / total * 100,
    which is what rounding to one decimal gives whichever way a tie goes;
    on a zero total the share is not a number. *)
Theorem overview_spec (m : Metric) (df : list Row) :
  let out := overview m df in
  NoDup (map summary_key out) /\
  (forall s c, In (s, c) (map summary_key out) <->
               exists r, In r df /\ state r = s /\ classification r = c) /\
  (forall x, In x out ->
     let g := of_state_class (sum_state x) (sum_classification x) df in
     sum_value x = match m with
                   | RawCount => Z.of_nat (List.length g)
                   | PositionWeighted => zsum (map position_weight g)
                   end /\
     sum_total x = group_value m (of_state (sum_state x) df) /\
     sum_total x = zsum (map sum_value (rows_of_state (sum_state x) out)) /\
     (sum_total x = 0 -> sum_share x = None) /\
     (sum_total x <> 0 ->
      exists q, sum_share x = Some q /\
        rounded_to_one_decimal
          (inject_Z (sum_value x) / inject_Z (sum_total x) * 100) q)).
Proof.
  cbv zeta. split; [|split].
  - rewrite overview_keys. apply group_keys_NoDup.
  - intros s c. rewrite overview_keys, group_keys_In. split.
    + intros [r [Hin Hk]]. injection Hk as <- <-. now exists r.
    + intros [r [Hin [<- <-]]]. now exists r.
  - intros x Hx. rewrite overview_state_total.
    rewrite overview_rows in Hx. apply in_map_iff in Hx.
    destruct Hx as [[s c] [<- Hk]].
    unfold with_share.
    cbn [sum_state sum_classification sum_value sum_total sum_share fst snd].
    rewrite group_state_class, !group_total_grouped.
    split; [destruct m; reflexivity|]. split; [reflexivity|]. split; [reflexivity|].
    apply share_rounded.
Qed.

Lemma overview_row_share (m : Metric) (df : list Row) (x : SummaryRow) :
  In x (overview m df) ->
  sum_share x = share (sum_value x) (group_total (grouped m df) (sum_state x)) /\
  sum_total x = group_total (grouped m df) (sum_state x).
Proof.
  rewrite overview_rows. intros H. apply in_map_iff in H.
  destruct H as [[s c] [<- _]]. split; reflexivity.
Qed.

Lemma rows_of_state_In (s : string) (out : list SummaryRow) (x : SummaryRow) :
  In x (rows_of_state s out) <-> In x out /\ sum_state x = s.
Proof.
  unfold rows_of_state. rewrite filter_In, String.eqb_eq. reflexivity.
Qed.

Lemma of_state_In (s : string) (df : list Row) (r : Row) :
  In r (of_state s df) <-> In r df /\ state r = s.
Proof. unfold of_state. rewrite filter_In, String.eqb_eq. reflexivity. Qed.

(** A state of the Overview table has a record in the frame. *)
Lemma overview_state_present (m : Metric) (df : list Row) (x : SummaryRow) :
  In x (overview m df) -> exists r, In r (of_state (sum_state x) df).
Proof.
  intros Hx. assert (Hk : In (summary_key x) (map summary_key (overview m df)))
    by now apply in_map.
  rewrite overview_keys in Hk. apply group_keys_In in Hk.
  destruct Hk as [r [Hin Hr]]. exists r. apply of_state_In. split; [exact Hin|].
  unfold state_class, summary_key in Hr. congruence.
Qed.




(** ** Division by a zero total *)

Lemma zsum_ge_one (l : list Z) :
  (forall z, In z l -> 1 <= z) -> l <> [] -> 1 <= zsum l.
Proof.
  intros Hall Hne. destruct l as [|z l]; [congruence|]. clear Hne.
  revert z Hall. induction l as [|y l IH]; intros z Hall; simpl.
  - specialize (Hall z (or_introl eq_refl)). lia.
  - assert (Hz := Hall z (or_introl eq_refl)).
    assert (1 <= zsum (y :: l)) by (apply IH; intros; apply Hall; now right).
    simpl in *. lia.
Qed.

Lemma keyword_filter_incl (ks : string) (df out : list Row) :
  keyword_filter ks df = Some out -> incl out df.
Proof.
  destruct (keyword_filter_cases ks df) as [[H _]|[f Hf]]; [congruence|].
  rewrite Hf. intros E r Hr. injection E as <-. now apply filter_In in Hr.
Qed.

Lemma apply_filters_incl (lo hi : Z) (sel : list string) (text : string)
    (df out : list Row) :
  apply_filters lo hi sel text df = Some out -> incl out (position_filter lo hi df).
Proof.
  unfold apply_filters. intros H r Hr.
  apply keyword_filter_incl in H. apply H in Hr.
  unfold state_filter in Hr. now apply filter_In in Hr.
Qed.

Lemma filtered_weight_positive (csv : Csv) (df : list Row) (lo hi : Z)
    (r : Row) :
  load_data (Some csv) = Loaded df -> 1 <= lo -> hi <= 10 ->
  In r (position_filter lo hi df) -> 1 <= position_weight r.
Proof.
  intros Hload Hlo Hhi Hr.
  apply position_filter_bounds in Hr. destruct Hr as [Hin [p [Hp Hrange]]].
  rewrite (loaded_row_weight csv df r Hload Hin), Hp.
  cbn [weight_of_position]. lia.
Qed.

Lemma kw_summary_rows (df : list Row) (x : KwRow) :
  In x (kw_summary df) ->
  exists c, In (kw_keyword x, c, kw_weight x) (kw_grouped df) /\
            kw_share x = share (kw_weight x) (kw_total (kw_grouped df) (kw_keyword x)).
Proof.
  unfold kw_summary. cbv zeta. intros H. apply in_map_iff in H.
  destruct H as [[[k c] w] [<- Hin]]. exists c. split; [exact Hin | reflexivity].
Qed.

Lemma kw_grouped_weight_positive (df : list Row) (y : string * string * Z) :
  (forall r, In r df -> 1 <= position_weight r) ->
  In y (kw_grouped df) -> 1 <= snd y.
Proof.
  intros Hw Hy. unfold kw_grouped in Hy. cbv zeta in Hy.
  apply in_map_iff in Hy. destruct Hy as [k [<- Hk]]. cbn [snd].
  apply zsum_ge_one.
  - intros z Hz. apply in_map_iff in Hz. destruct Hz as [[kw r] [<- Hin]].
    apply group_In in Hin. destruct Hin as [Hin _].
    unfold dropna_keyword in Hin. apply in_flat_map in Hin.
    destruct Hin as [r' [Hr' Hin]]. apply Hw.
    destruct (keyword r'); [|contradiction].
    destruct Hin as [E|[]]. injection E as _ <-. exact Hr'.
  - intros E. apply map_eq_nil in E. revert E. now apply group_nonempty with (K_leb := pair_leb).
Qed.

(** C9. With a position range inside [1,10], every loaded record that
    passes the position range filter has weight at least 1; so, over the
    filtered records, every state total of the weighted Overview and every
    keyword total of Keyword Detail is strictly positive, and every share
    is a number: no share divides by zero. (The bound [lo <= hi] is not
    needed.) *)
Theorem totals_positive_in_range (csv : Csv) (df out : list Row)
    (lo hi : Z) (sel : list string) (text : string) :
  load_data (Some csv) = Loaded df -> 1 <= lo -> hi <= 10 ->
  apply_filters lo hi sel text df = Some out ->
  (forall r, In r (position_filter lo hi df) -> 1 <= position_weight r) /\
  (forall x, In x (overview PositionWeighted out) ->
     0 < sum_total x /\ exists q, sum_share x = Some q) /\
  (forall x, In x (kw_summary out) ->
     0 < kw_total (kw_grouped out) (kw_keyword x) /\ exists q, kw_share x = Some q).
Proof.
  intros Hload Hlo Hhi Hout.
  assert (Hpos : forall r, In r (position_filter lo hi df) -> 1 <= position_weight r)
    by (intros r; now apply (filtered_weight_positive csv)).
  assert (Hw : forall r, In r out -> 1 <= position_weight r)
    by (intros r Hr; apply Hpos; now apply (apply_filters_incl _ _ _ _ _ _ Hout)).
  split; [exact Hpos|]. split.
  - intros x Hx. destruct (overview_row_share _ _ _ Hx) as [Hs Ht].
    assert (HT : 0 < sum_total x).
    { rewrite Ht, group_total_grouped. cbn [group_value].
      destruct (overview_state_present _ _ _ Hx) as [r Hr].
      enough (1 <= zsum (map position_weight (of_state (sum_state x) out))) by lia.
      apply zsum_ge_one.
      - intros z Hz. apply in_map_iff in Hz. destruct Hz as [r' [<- Hr']].
        apply Hw. now apply of_state_In in Hr'.
      - intros E. apply map_eq_nil in E. rewrite E in Hr. exact Hr. }
    split; [exact HT|]. rewrite Hs, <- Ht. unfold share.
    destruct (Z.eqb_spec (sum_total x) 0); [lia | eexists; reflexivity].
  - intros x Hx. destruct (kw_summary_rows _ _ Hx) as [c [Hin Hs]].
    assert (HT : 0 < kw_total (kw_grouped out) (kw_keyword x)).
    { unfold kw_total, group_total.
      enough (1 <= zsum (map snd (group string_dec row_state (kw_grouped out)
                                        (kw_keyword x)))) by lia.
      apply zsum_ge_one.
      - intros z Hz. apply in_map_iff in Hz. destruct Hz as [y [<- Hy]].
        apply group_In in Hy. destruct Hy as [Hy _].
        now apply (kw_grouped_weight_positive out).
      - intros E. apply map_eq_nil in E.
        assert (Hg : In (kw_keyword x, c, kw_weight x)
                        (group string_dec row_state (kw_grouped out) (kw_keyword x)))
          by (apply group_In; split; [exact Hin | reflexivity]).
        rewrite E in Hg. exact Hg. }
    split; [exact HT|]. rewrite Hs. unfold share.
    destruct (Z.eqb_spec (kw_total (kw_grouped out) (kw_keyword x)) 0);
      [lia | eexists; reflexivity].
Qed.

Lemma totals_positive_in_range_witness :
  let df := map load_row tie_rows in
  let out := df in
  (forall r, In r (position_filter 1 10 df) -> 1 <= position_weight r) /\
  (forall x, In x (overview PositionWeighted out) ->
     0 < sum_total x /\ exists q, sum_share x = Some q) /\
  (forall x, In x (kw_summary out) ->
     0 < kw_total (kw_grouped out) (kw_keyword x) /\ exists q, kw_share x = Some q).
Proof.
  apply (totals_positive_in_range (full_csv tie_rows) (map load_row tie_rows)
           (map load_row tie_rows) 1 10 ["CA"] EmptyString).
  - reflexivity.
  - lia.
  - lia.
  - reflexivity.
Defined.

(** ** Keyword Detail *)

(** ** Brand Breakdown *)

Lemma present_query_app (l : list string) (rest : list (option string)) :
  present_names (query_nonempty (map Some l ++ rest)%list) =
  (filter (fun b => negb (Str.is_empty b)) l ++ present_names (query_nonempty rest))%list.
Proof.
  induction l as [|b l IH]; [reflexivity|].
  cbn [map app]. unfold query_nonempty in *. cbn [filter].
  destruct (negb (Str.is_empty b)); [|exact IH].
  unfold present_names in *. cbn [flat_map app]. now rewrite IH.
Qed.

(** The names counted are the non-empty pieces of the present cells. *)
Lemma brand_names_pieces (col : Row -> option string) (df : list Row) :
  brand_names col df =
  filter (fun b => negb (Str.is_empty b)) (brand_pieces col df).
Proof.
  unfold brand_names, brand_pieces, explode_brands.
  induction df as [|r df IH]; [reflexivity|].
  cbn [flat_map]. rewrite filter_app, <- IH. destruct (col r) as [s|].
  - apply present_query_app.
  - reflexivity.
Qed.

Lemma group_length_count (names : list string) (b : string) :
  List.length (group string_dec (fun n => n) names b) = count_occ string_dec names b.
Proof.
  unfold group. induction names as [|n names IH]; [reflexivity|].
  cbn [filter count_occ]. destruct (string_dec n b); cbn [List.length]; now rewrite IH.
Qed.

Lemma brand_sizes_keys (names : list string) :
  map fst (brand_sizes names) =
  group_keys string_dec String.leb (fun n : string => n) names.
Proof. unfold brand_sizes. rewrite map_map. apply map_id. Qed.

Lemma brand_sizes_In (names : list string) (b : string) (n : nat) :
  In (b, n) (brand_sizes names) <->
  In b names /\ n = count_occ string_dec names b.
Proof.
  unfold brand_sizes. rewrite in_map_iff. split.
  - intros [k [E Hk]]. injection E as -> <-.
    apply group_keys_In in Hk. destruct Hk as [a [Ha ->]].
    split; [exact Ha | apply group_length_count].
  - intros [Hin ->]. exists b. split; [now rewrite group_length_count|].
    apply group_keys_In. now exists b.
Qed.

Lemma sort_by_count_desc_sorted (t : list (string * nat)) :
  StronglySorted (fun x y => (snd y <= snd x)%nat) (sort_by_count_desc t).
Proof.
  unfold sort_by_count_desc.
  set (leb := fun x y : string * nat => (snd y <=? snd x)%nat).
  assert (Hs : Sorted (fun a b => leb a b = true) (isort leb t)).
  { apply isort_sorted. intros x y. unfold leb.
    destruct (Nat.leb_spec (snd y) (snd x)); [now left|].
    right. apply Nat.leb_le. lia. }
  apply Sorted_StronglySorted in Hs.
  - induction Hs as [|a l Hl IH Hall]; constructor; [exact IH|].
    apply Forall_impl with (2 := Hall). intros y Hy. now apply Nat.leb_le.
  - intros x y z Hxy Hyz. unfold leb in *. apply Nat.leb_le in Hxy, Hyz.
    apply Nat.leb_le. lia.
Qed.

(** C5. For either brand column, the names counted are the non-empty
    pieces of the cells split at comma-space, record after record; the
    count table has one row per distinct name, with the number of its
    occurrences among them (repeats within a record included); the result
    is the first 25 rows of that table sorted by count, largest first. On
    the cells [A, B, A], [B] and an empty cell, either column counts A
    twice and B twice, and an empty cell alone counts nothing. *)
Theorem brand_breakdown_spec (col : Row -> option string) (df : list Row) :
  let names := brand_names col df in
  let table := brand_sizes names in
  names = filter (fun b => negb (Str.is_empty b)) (brand_pieces col df) /\
  NoDup (map fst table) /\
  (forall b n, In (b, n) table <-> In b names /\ n = count_occ string_dec names b) /\
  (exists sorted,
     Permutation sorted table /\
     StronglySorted (fun x y => (snd y <= snd x)%nat) sorted /\
     brand_breakdown col df = firstn 25 sorted) /\
  (List.length (brand_breakdown col df) <= 25)%nat /\
  (let ex := map load_row brand_rows in
   Str.split_comma_space "A, B, A" = ["A"; "B"; "A"] /\
   Permutation (brand_breakdown real_brands ex) [("A", 2%nat); ("B", 2%nat)] /\
   Permutation (brand_breakdown sweeps_brands ex) [("A", 2%nat); ("B", 2%nat)] /\
   brand_names real_brands (skipn 2 ex) = [] /\
   brand_names sweeps_brands (skipn 2 ex) = []).
Proof.
  cbv zeta. split; [apply brand_names_pieces|].
  split; [rewrite brand_sizes_keys; apply group_keys_NoDup|].
  split; [intros b n; apply brand_sizes_In|].
  split.
  - exists (sort_by_count_desc (brand_sizes (brand_names col df))).
    split; [apply isort_perm|]. split; [apply sort_by_count_desc_sorted | reflexivity].
  - split; [unfold brand_breakdown; apply firstn_le_length|].
    repeat split; vm_compute; reflexivity.
Qed.

(** * Further properties *)

(** ** Orders *)

Section OrderFacts.

Context {A : Type} (cmp : A -> A -> comparison) `{!OrderCmp cmp}.

Lemma cmp_eq_r (x y z : A) : cmp y z = Eq -> cmp x y = cmp x z.
Proof.
  intros H. assert (Hzy : cmp z y = Eq) by (rewrite cmp_antisym, H; reflexivity).
  rewrite (cmp_antisym z x), (cmp_antisym y x), (cmp_eq_l z y x Hzy). reflexivity.
Qed.

Lemma cmp_refl (x : A) : cmp x x = Eq.
Proof. pose proof (cmp_antisym x x) as H. destruct (cmp x x); cbn in H; congruence. Qed.

Lemma leb_of_total (x y : A) : leb_of cmp x y = true \/ leb_of cmp y x = true.
Proof.
  unfold leb_of. rewrite (cmp_antisym x y). destruct (cmp x y); cbn; auto.
Qed.

Lemma leb_of_trans (x y z : A) :
  leb_of cmp x y = true -> leb_of cmp y z = true -> leb_of cmp x z = true.
Proof.
  unfold leb_of. destruct (cmp x y) eqn:Hxy; [| |discriminate].
  - now rewrite (cmp_eq_l x y z Hxy).
  - destruct (cmp y z) eqn:Hyz; [| |discriminate]; intros _ _.
    + now rewrite <- (cmp_eq_r x y z Hyz), Hxy.
    + now rewrite (cmp_lt_trans x y z Hxy Hyz).
Qed.

(** [sort_values] gives the rows it was given, each before every row that
    sorts strictly after it. *)
Lemma sort_values_sorted (l : list A) :
  Permutation (sort_values cmp l) l /\
  StronglySorted (fun a b => cmp a b <> Gt) (sort_values cmp l).
Proof.
  split; [apply isort_perm|].
  unfold sort_values.
  assert (Hs : Sorted (fun a b => leb_of cmp a b = true) (isort (leb_of cmp) l))
    by (apply isort_sorted, leb_of_total).
  apply Sorted_StronglySorted in Hs; [|exact leb_of_trans].
  induction Hs as [|a l' Hl IH Hall]; constructor; [exact IH|].
  apply Forall_impl with (2 := Hall). intros b Hb. unfold leb_of in Hb.
  destruct (cmp a b); congruence.
Qed.

End OrderFacts.

#[local] Instance string_order : OrderCmp String.compare.
Proof.
  split.
  - intros x y. apply String.compare_antisym.
  - intros x y z H. apply String.compare_eq_iff in H. now subst.
  - intros x y z Hxy Hyz. apply String_as_OT.cmp_lt in Hxy, Hyz.
    apply String_as_OT.cmp_lt. now apply String_as_OT.lt_trans with y.
Qed.

#[local] Instance Z_order : OrderCmp Z.compare.
Proof.
  split.
  - intros x y. apply Z.compare_antisym.
  - intros x y z H. apply Z.compare_eq in H. now subst.
  - intros x y z Hxy Hyz. rewrite Z.compare_lt_iff in *. lia.
Qed.

#[local] Instance Q_order : OrderCmp Qcompare.
Proof.
  split.
  - intros x y. symmetry. apply Qcompare_antisym.
  - intros x y z H. apply Qeq_alt in H. now rewrite H.
  - intros x y z Hxy Hyz. rewrite <- Qlt_alt in *. now apply Qlt_trans with y.
Qed.

#[local] Instance descending_order {A : Type} (cmp : A -> A -> comparison)
    `{!OrderCmp cmp} : OrderCmp (descending cmp).
Proof.
  unfold descending. split.
  - intros x y. apply cmp_antisym; assumption.
  - intros x y z H. apply (cmp_eq_r cmp). now rewrite cmp_antisym, H.
  - intros x y z Hxy Hyz. now apply (cmp_lt_trans z y x).
Qed.

#[local] Instance none_last_order {A : Type} (cmp : A -> A -> comparison)
    `{!OrderCmp cmp} : OrderCmp (none_last cmp).
Proof.
  split.
  - intros [x|] [y|]; cbn; auto. apply cmp_antisym; assumption.
  - intros [x|] [y|] [z|]; cbn; try discriminate; auto. apply cmp_eq_l; assumption.
  - intros [x|] [y|] [z|]; cbn; try discriminate; auto. apply cmp_lt_trans; assumption.
Qed.

#[local] Instance on_column_order {A B : Type} (f : A -> B) (cmp : B -> B -> comparison)
    `{!OrderCmp cmp} : OrderCmp (on_column f cmp).
Proof.
  unfold on_column. split.
  - intros x y. apply cmp_antisym; assumption.
  - intros x y z. apply cmp_eq_l; assumption.
  - intros x y z. apply cmp_lt_trans; assumption.
Qed.

#[local] Instance then_by_order {A : Type} (c1 c2 : A -> A -> comparison)
    `{!OrderCmp c1} `{!OrderCmp c2} : OrderCmp (then_by c1 c2).
Proof.
  unfold then_by. split.
  - intros x y. rewrite (cmp_antisym (cmp := c1) x y).
    destruct (c1 x y); cbn; auto. apply cmp_antisym; assumption.
  - intros x y z H. destruct (c1 x y) eqn:H1; try discriminate.
    rewrite (cmp_eq_l x y z H1), (cmp_eq_l x y z H). reflexivity.
  - intros x y z Hxy Hyz.
    destruct (c1 x y) eqn:H1; try discriminate.
    + rewrite (cmp_eq_l x y z H1).
      destruct (c1 y z); try discriminate; auto.
      now apply (cmp_lt_trans (cmp := c2)) with y.
    + destruct (c1 y z) eqn:H2; try discriminate.
      * now rewrite <- (cmp_eq_r c1 x y z H2), H1.
      * now rewrite (cmp_lt_trans x y z H1 H2).
Qed.

(** ** The filter chain *)

Lemma isin_In (values : list string) (s : string) :
  isin values s = true <-> In s values.
Proof.
  unfold isin. rewrite existsb_exists. split.
  - intros [v [Hin E]]. apply String.eqb_eq in E. now subst.
  - intros H. exists s. split; [exact H | apply String.eqb_refl].
Qed.

Lemma between_spec (lo hi : Z) (p : option Z) :
  between lo hi p = true <-> exists v, p = Some v /\ lo <= v <= hi.
Proof.
  destruct p as [v|]; cbn.
  - rewrite andb_true_iff, !Z.leb_le. split.
    + intros H. exists v. split; [reflexivity | lia].
    + intros [v' [E H]]. injection E as <-. lia.
  - split; [discriminate | intros [v [E _]]; discriminate].
Qed.

Lemma filter_and {A : Type} (f g : A -> bool) (l : list A) :
  filter f (filter g l) = filter (fun a => g a && f a) l.
Proof.
  induction l as [|a l IH]; [reflexivity|]. cbn [filter].
  destruct (g a); cbn [filter andb]; [destruct (f a)|]; now rewrite IH.
Qed.

Lemma keyword_step_keep (lib : TextLib) (column : ColumnKind) (text : string) :
  literal_on_plain lib ->
  let ks := py_lower lib (py_strip lib text) in
  ks = EmptyString \/ (Re.is_plain ks = true /\ column = TextColumn) ->
  exists keep : Row -> bool,
    (forall d, keyword_step lib column text d = Ok (filter keep d)) /\
    forall r, keep r = true <->
      (ks = EmptyString \/
       exists k, keyword r = Some k /\ Str.contains (py_lower lib k) ks).
Proof.
  intros Hlib. cbv zeta. unfold keyword_step. cbv zeta.
  destruct (py_lower lib (py_strip lib text)) as [|c ks] eqn:E; cbn [Str.is_empty].
  - intros _. exists (fun _ => true). split.
    + intros d. f_equal. induction d as [|a d IH]; simpl; congruence.
    + intros r. split; [now left | reflexivity].
  - intros [H|[Hplain ->]]; [discriminate|].
    destruct (Hlib _ Hplain) as [found [Hc Hfound]]. rewrite Hc.
    eexists. split; [intros d; reflexivity|].
    intros r. cbv beta. destruct (keyword r) as [k|].
    + rewrite Hfound. split.
      * intros H. right. now exists k.
      * intros [H|[k' [Hk H]]]; [discriminate | now injection Hk as <-].
    + split; [discriminate | intros [H|[k [Hk _]]]; discriminate].
Qed.

(** X1. On a file that loads, with a normalised keyword input that is
    empty, or that has no special character of regular expressions while
    the keyword column holds text, the three filters of the script keep
    exactly the loaded records that are in the position range, whose state
    is selected and whose lowercased keyword contains the input, in the
    order of the file. *)
Theorem script_filters_spec (lib : TextLib) (lo hi : Z) (state_sel : list string)
    (text : string) (csv : Csv) (loaded : list Row) :
  literal_on_plain lib ->
  load_data (Some csv) = Loaded loaded ->
  let ks := py_lower lib (py_strip lib text) in
  ks = EmptyString \/
  (Re.is_plain ks = true /\ keyword_column csv = TextColumn) ->
  exists out keep,
    script_filters lib lo hi state_sel text (Some csv) = Ok out /\
    out = filter keep loaded /\
    forall r, In r out <->
      In r loaded /\
      (exists p, position r = Some p /\ lo <= p <= hi) /\
      In (state r) state_sel /\
      (ks = EmptyString \/
       exists k, keyword r = Some k /\ Str.contains (py_lower lib k) ks).
Proof.
  intros Hlib Hload. cbv zeta. intros Hks. unfold script_filters. rewrite Hload.
  destruct (keyword_step_keep lib (keyword_column csv) text Hlib Hks)
    as [keep [Hstep Hkeep]].
  rewrite Hstep. eexists.
  exists (fun r => between lo hi (position r) &&
                   (isin state_sel (state r) && keep r)).
  split; [reflexivity|]. split.
  - unfold state_filter, position_filter. now rewrite !filter_and.
  - intros r. unfold state_filter, position_filter.
    rewrite !filter_In, isin_In, between_spec, Hkeep. tauto.
Qed.

Lemma script_filters_spec_witness :
  let ks := py_lower ascii_lib (py_strip ascii_lib "  Casino ") in
  exists out keep,
    script_filters ascii_lib 1 4 ["CA"] "  Casino " (Some (full_csv gap_rows))
    = Ok out /\
    out = filter keep (map load_row gap_rows) /\
    forall r, In r out <->
      In r (map load_row gap_rows) /\
      (exists p, position r = Some p /\ 1 <= p <= 4) /\
      In (state r) ["CA"] /\
      (ks = EmptyString \/
       exists k, keyword r = Some k /\ Str.contains (py_lower ascii_lib k) ks).
Proof.
  apply (script_filters_spec ascii_lib 1 4 ["CA"] "  Casino " (full_csv gap_rows)
           (map load_row gap_rows) ascii_lib_literal).
  - reflexivity.
  - right. split; reflexivity.
Defined.

(** ** Default state selection *)

Lemma filter_all {A : Type} (f : A -> bool) (l : list A) :
  (forall a, In a l -> f a = true) -> filter f l = l.
Proof.
  induction l as [|a l IH]; intros H; [reflexivity|]. cbn [filter].
  rewrite (H a (or_introl eq_refl)), IH; [reflexivity|].
  intros b Hb. apply H. now right.
Qed.

Lemma StronglySorted_NoDup {A : Type} (R : A -> A -> Prop) (l : list A) :
  StronglySorted R l -> NoDup l -> StronglySorted (fun a b => R a b /\ a <> b) l.
Proof.
  induction 1 as [|a l Hs IH Hall]; intros Hnd; constructor.
  - apply IH. now inversion Hnd.
  - inversion Hnd as [|? ? Hnotin _]; subst.
    rewrite Forall_forall in *. intros b Hb. split; [now apply Hall|].
    intros ->. contradiction.
Qed.

Lemma StronglySorted_impl {A : Type} (R R' : A -> A -> Prop) (l : list A) :
  (forall a b, R a b -> R' a b) -> StronglySorted R l -> StronglySorted R' l.
Proof.
  intros HR. induction 1 as [|a l Hs IH Hall]; constructor; [exact IH|].
  apply Forall_impl with (2 := Hall). intros b. apply HR.
Qed.

Lemma states_In (df : list Row) (s : string) :
  In s (states df) <-> exists r, In r df /\ state r = s.
Proof. apply (group_keys_In string_dec String.leb state). Qed.

(** X2. The options of the state multiselect are the states of the
    position-filtered frame, each once, in strictly increasing order; with
    the default selection (all of them) the state filter keeps every record,
    so an untouched sidebar leaves the position-filtered frame as it is. *)
Theorem default_selection_keeps_all (lo hi : Z) (df : list Row) :
  let df_pos := position_filter lo hi df in
  (forall s, In s (states df_pos) <-> exists r, In r df_pos /\ state r = s) /\
  StronglySorted (fun a b => String.ltb a b = true) (states df_pos) /\
  state_filter (states df_pos) df_pos = df_pos /\
  default_filters lo hi df = Some df_pos.
Proof.
  cbv zeta. set (df_pos := position_filter lo hi df).
  assert (Hall : state_filter (states df_pos) df_pos = df_pos).
  { unfold state_filter. apply filter_all. intros r Hr.
    apply isin_In, states_In. now exists r. }
  split; [apply states_In|]. split; [|split; [exact Hall|]].
  - assert (Hnd : NoDup (states df_pos))
      by apply (group_keys_NoDup string_dec String.leb state).
    destruct (@sort_values_sorted _ String.compare string_order
                (nodup string_dec (map state df_pos))) as [_ Hs].
    change (sort_values String.compare (nodup string_dec (map state df_pos)))
      with (states df_pos) in Hs.
    apply (StronglySorted_NoDup _ _ Hs) in Hnd.
    apply StronglySorted_impl with (2 := Hnd). intros a b [Hle Hne].
    unfold String.ltb. destruct (String.compare a b) eqn:C; try congruence.
    apply String.compare_eq_iff in C. contradiction.
  - unfold default_filters. cbv zeta. fold df_pos. rewrite Hall. reflexivity.
Qed.

(** ** Splitting brand cells *)

Lemma string_app_assoc (a b c : string) : (a ++ b) ++ c = a ++ (b ++ c).
Proof. induction a as [|x a IH]; cbn; [reflexivity | now rewrite IH]. Qed.

Lemma split_from_step (cur : string) (c d : ascii) (rest : string) :
  Str.split_from cur (String c (String d rest)) =
  if (Ascii.eqb c "," && Ascii.eqb d " ")%bool
  then cur :: Str.split_from EmptyString rest
  else Str.split_from (cur ++ String c EmptyString) (String d rest).
Proof. reflexivity. Qed.

Lemma split_from_cons (cur s : string) :
  exists p ps, Str.split_from cur s = p :: ps.
Proof.
  enough (H : (forall cur, exists p ps, Str.split_from cur s = p :: ps) /\
              (forall c cur, exists p ps, Str.split_from cur (String c s) = p :: ps))
    by apply H.
  clear cur. induction s as [|d rest [IH1 IH2]].
  - split; intros; cbn; eauto.
  - split; [intros cur; apply IH2|]. intros c cur. rewrite split_from_step.
    destruct (Ascii.eqb c "," && Ascii.eqb d " ")%bool; [eauto | apply IH2].
Qed.

Lemma concat_split_from (s : string) :
  (forall cur, String.concat ", " (Str.split_from cur s) = cur ++ s) /\
  (forall c cur, String.concat ", " (Str.split_from cur (String c s)) =
                 cur ++ String c s).
Proof.
  induction s as [|d rest [IH1 IH2]].
  - split; intros; cbn; [|reflexivity].
    induction cur as [|x cur IH]; cbn; congruence.
  - split; [intros cur; apply IH2|]. intros c cur.
    rewrite split_from_step.
    destruct (Ascii.eqb_spec c ","%char) as [->|Hc];
      [destruct (Ascii.eqb_spec d " "%char) as [->|Hd]|]; cbn [andb].
    + destruct (split_from_cons EmptyString rest) as [p [ps E]].
      cbn [String.concat]. rewrite E, <- E, IH1. reflexivity.
    + rewrite IH2, string_app_assoc. reflexivity.
    + rewrite IH2, string_app_assoc. reflexivity.
Qed.

Lemma has_separator_cons (a : ascii) (s : string) :
  has_separator (String a s) =
  (Ascii.eqb a ","%char && starts_with_space s || has_separator s)%bool.
Proof.
  unfold has_separator, comma_space. cbn [Re.literal Re.search Re.match_here Re.atom_match].
  rewrite (Ascii.eqb_sym ","%char a). f_equal. f_equal.
  destruct s as [|b s]; cbn; [reflexivity|].
  now rewrite andb_true_r, Ascii.eqb_sym.
Qed.

Lemma has_separator_snoc (cur : string) (c : ascii) :
  has_separator (cur ++ String c EmptyString) =
  (has_separator cur || ends_with_comma cur && Ascii.eqb c " "%char)%bool.
Proof.
  induction cur as [|a cur IH].
  - cbn. now rewrite !andb_false_r.
  - cbn [append]. rewrite !has_separator_cons, IH.
    destruct cur as [|b cur].
    + cbn. rewrite !andb_false_r, !orb_false_r. reflexivity.
    + cbn [append starts_with_space ends_with_comma].
      now rewrite orb_assoc.
Qed.

Lemma ends_with_comma_snoc (cur : string) (c : ascii) :
  ends_with_comma (cur ++ String c EmptyString) = Ascii.eqb c ","%char.
Proof.
  induction cur as [|a cur IH]; [reflexivity|].
  cbn [append]. destruct cur as [|b cur]; [reflexivity|].
  cbn [append ends_with_comma] in *. exact IH.
Qed.

(** The piece being read stays free of the separator when the text ahead
    does not complete one. *)
Lemma split_from_separator_free (s : string) :
  (forall cur, has_separator cur = false ->
               (ends_with_comma cur = true -> starts_with_space s = false) ->
               Forall (fun p => has_separator p = false) (Str.split_from cur s)) /\
  (forall c cur, has_separator cur = false ->
                 (ends_with_comma cur = true -> Ascii.eqb c " "%char = false) ->
                 Forall (fun p => has_separator p = false)
                        (Str.split_from cur (String c s))).
Proof.
  induction s as [|d rest [IH1 IH2]].
  - split.
    + intros cur Hc _. repeat constructor. exact Hc.
    + intros c cur Hc He. repeat constructor. rewrite has_separator_snoc, Hc.
      destruct (ends_with_comma cur); [now rewrite He|reflexivity].
  - split; [intros cur Hc He; now apply IH2|].
    intros c cur Hc He. rewrite split_from_step.
    destruct (Ascii.eqb c "," && Ascii.eqb d " ")%bool eqn:E.
    + constructor; [exact Hc|]. apply IH1; [reflexivity | discriminate].
    + apply IH2.
      * rewrite has_separator_snoc, Hc.
        destruct (ends_with_comma cur); [now rewrite He|reflexivity].
      * rewrite ends_with_comma_snoc. intros Hcomma. rewrite Hcomma in E.
        exact E.
Qed.

Lemma split_comma_space_pieces (s : string) :
  Str.split_comma_space s <> [] /\
  Forall (fun p => ~ Str.contains p ", ") (Str.split_comma_space s).
Proof.
  unfold Str.split_comma_space. split.
  - destruct (split_from_cons EmptyString s) as [p [ps E]]. rewrite E. discriminate.
  - assert (H := proj1 (split_from_separator_free s) EmptyString eq_refl).
    apply Forall_impl with (2 := H (fun e => False_ind _ (Bool.diff_false_true e))).
    intros p Hp Hc. apply search_literal in Hc.
    unfold has_separator, comma_space in Hp. congruence.
Qed.

(** X3. Joining the pieces of a brand cell with comma-space gives the cell
    back, and no piece has a comma-space in it: the pieces are exactly the
    text between the separators. *)
Theorem split_comma_space_round_trip (s : string) :
  String.concat ", " (Str.split_comma_space s) = s /\
  Str.split_comma_space s <> [] /\
  Forall (fun p => ~ Str.contains p ", ") (Str.split_comma_space s).
Proof.
  split; [apply (proj1 (concat_split_from s)) | apply split_comma_space_pieces].
Qed.

(** ** Brand counts *)

Lemma zsum_ones {A : Type} (l : list A) :
  zsum (map (fun _ => 1) l) = Z.of_nat (List.length l).
Proof.
  induction l as [|a l IH]; [reflexivity|].
  cbn [map zsum fold_right List.length] in *. fold (zsum (map (fun _ : A => 1) l)).
  rewrite IH. lia.
Qed.

Lemma StronglySorted_app_cross {A : Type} (R : A -> A -> Prop) (l1 l2 : list A) :
  StronglySorted R (l1 ++ l2) ->
  forall x y, In x l1 -> In y l2 -> R x y.
Proof.
  induction l1 as [|a l1 IH]; intros Hs x y Hx Hy; [contradiction|].
  cbn [app] in Hs. inversion Hs as [|? ? Hs' Hall]; subst.
  destruct Hx as [<-|Hx].
  - rewrite Forall_forall in Hall. apply Hall, in_or_app. now right.
  - now apply IH.
Qed.

Lemma firstn_incl {A : Type} (n : nat) (l : list A) (x : A) :
  In x (firstn n l) -> In x l.
Proof.
  intros H. rewrite <- (firstn_skipn n l). apply in_or_app. now left.
Qed.

(** X4. In the brand table of either column the counts add up to the
    number of names counted and every count is at least 1. The result
    leaves out only rows that no row shown has fewer mentions than, every
    row shown is a row of the table, and a table of at most 25 brands is
    shown whole. *)
Theorem brand_breakdown_top (col : Row -> option string) (df : list Row) :
  let names := brand_names col df in
  let table := brand_sizes names in
  let shown := brand_breakdown col df in
  zsum (map (fun x => Z.of_nat (snd x)) table) = Z.of_nat (List.length names) /\
  (forall x, In x table -> (1 <= snd x)%nat) /\
  (exists rest, Permutation (shown ++ rest) table /\
                forall x y, In x shown -> In y rest -> (snd y <= snd x)%nat) /\
  (forall b n, In (b, n) shown -> n = count_occ string_dec names b) /\
  ((List.length table <= 25)%nat -> Permutation shown table).
Proof.
  cbv zeta. set (names := brand_names col df). set (table := brand_sizes names).
  assert (Hperm : Permutation (sort_by_count_desc table) table) by apply isort_perm.
  split; [|split; [|split; [|split]]].
  - unfold table, brand_sizes. rewrite map_map. cbn [snd].
    erewrite map_ext by (intros b; symmetry; apply zsum_ones).
    rewrite (zsum_groups string_dec (fun n : string => n) (fun _ => 1))
      by apply group_keys_NoDup.
    rewrite zsum_ones. f_equal. f_equal. apply filter_all. intros b Hb.
    destruct (in_dec string_dec b _) as [|Hn]; [reflexivity|].
    exfalso. apply Hn. apply group_keys_In. now exists b.
  - intros [b n] Hx. apply brand_sizes_In in Hx. destruct Hx as [Hin ->].
    cbn [snd]. apply (count_occ_In string_dec) in Hin. lia.
  - exists (skipn 25 (sort_by_count_desc table)). unfold brand_breakdown.
    fold names table. split.
    + now rewrite firstn_skipn.
    + apply StronglySorted_app_cross. rewrite firstn_skipn.
      apply sort_by_count_desc_sorted.
  - intros b n Hin. unfold brand_breakdown in Hin. fold names table in Hin.
    apply firstn_incl in Hin. apply (Permutation_in _ Hperm) in Hin.
    now apply brand_sizes_In in Hin.
  - intros Hlen. unfold brand_breakdown. fold names table.
    rewrite firstn_all2; [exact Hperm|].
    now rewrite (Permutation_length Hperm).
Qed.

(** ** Combined leaderboard *)

Lemma isort_desc_sorted {A : Type} (f : A -> nat) (l : list A) :
  StronglySorted (fun x y => (f y <= f x)%nat)
                 (isort (fun x y => (f y <=? f x)%nat) l).
Proof.
  set (leb := fun x y : A => (f y <=? f x)%nat).
  assert (Hs : Sorted (fun a b => leb a b = true) (isort leb l)).
  { apply isort_sorted. intros x y. unfold leb.
    destruct (Nat.leb_spec (f y) (f x)); [now left|].
    right. apply Nat.leb_le. lia. }
  apply Sorted_StronglySorted in Hs.
  - apply StronglySorted_impl with (2 := Hs). intros x y. apply Nat.leb_le.
  - intros x y z Hxy Hyz. unfold leb in *. apply Nat.leb_le in Hxy, Hyz.
    apply Nat.leb_le. lia.
Qed.

Lemma assign_type_In (ty ty' : string) (t : list (string * nat)) (b : string) (n : nat) :
  In (b, n, ty') (assign_type ty t) <-> ty' = ty /\ In (b, n) t.
Proof.
  unfold assign_type. rewrite in_map_iff. split.
  - intros [[b' n'] [E Hin]]. cbn in E. injection E as -> -> ->. now split.
  - intros [-> Hin]. now exists (b, n).
Qed.

(** X5. The combined leaderboard holds the rows of the two brand tables
    and nothing else, each tagged with the table it comes from, so a brand
    of both tables is listed twice; the rows are in descending order of
    count, and there are at most 50 of them. *)
Theorem combined_spec (df : list Row) :
  let real := brand_breakdown real_brands df in
  let sweeps := brand_breakdown sweeps_brands df in
  Permutation (combined df) (assign_type "Real" real ++ assign_type "Sweeps" sweeps) /\
  StronglySorted (fun x y => (entry_count y <= entry_count x)%nat) (combined df) /\
  (forall b n ty, In (b, n, ty) (combined df) <->
                  (ty = "Real" /\ In (b, n) real) \/
                  (ty = "Sweeps" /\ In (b, n) sweeps)) /\
  List.length (combined df) = (List.length real + List.length sweeps)%nat /\
  (List.length (combined df) <= 50)%nat.
Proof.
  cbv zeta.
  assert (Hperm : Permutation (combined df)
            (assign_type "Real" (brand_breakdown real_brands df) ++
             assign_type "Sweeps" (brand_breakdown sweeps_brands df)))
    by apply isort_perm.
  assert (Hlen : List.length (combined df) =
                 (List.length (brand_breakdown real_brands df) +
                  List.length (brand_breakdown sweeps_brands df))%nat).
  { rewrite (Permutation_length Hperm), length_app. unfold assign_type.
    now rewrite !length_map. }
  split; [exact Hperm|]. split; [apply isort_desc_sorted|].
  split; [|split; [exact Hlen|]].
  - intros b n ty. split.
    + intros H. apply (Permutation_in _ Hperm), in_app_or in H.
      rewrite !assign_type_In in H. exact H.
    + intros H. apply (Permutation_in _ (Permutation_sym Hperm)), in_or_app.
      rewrite !assign_type_In. exact H.
  - rewrite Hlen. unfold brand_breakdown.
    pose proof (firstn_le_length 25
      (sort_by_count_desc (brand_sizes (brand_names real_brands df)))).
    pose proof (firstn_le_length 25
      (sort_by_count_desc (brand_sizes (brand_names sweeps_brands df)))).
    lia.
Qed.

(** ** Overview: totals and bounds *)

Lemma zsum_nonneg (l : list Z) : (forall z, In z l -> 0 <= z) -> 0 <= zsum l.
Proof.
  induction l as [|z l IH]; intros H; cbn; [lia|].
  assert (0 <= z) by (apply H; now left).
  assert (0 <= zsum l) by (apply IH; intros; apply H; now right).
  unfold zsum in *. lia.
Qed.

Lemma zsum_filter_and_le {A : Type} (w : A -> Z) (p q : A -> bool) (l : list A) :
  (forall a, In a l -> 0 <= w a) ->
  zsum (map w (filter (fun a => p a && q a) l)) <= zsum (map w (filter p l)).
Proof.
  induction l as [|a l IH]; intros H; [cbn; lia|].
  assert (Ha : 0 <= w a) by (apply H; now left).
  assert (IH' : zsum (map w (filter (fun a => p a && q a) l))
                <= zsum (map w (filter p l)))
    by (apply IH; intros; apply H; now right).
  cbn [filter]. destruct (p a), (q a); cbn [andb map zsum fold_right];
    unfold zsum in *; lia.
Qed.

(** [rint] stays between the integers its argument lies between. *)
Lemma rint_range (q : Q) (a b : Z) :
  (inject_Z a <= q <= inject_Z b)%Q -> a <= rint q <= b.
Proof.
  intros [Ha Hb]. pose proof (rint_bound q) as H.
  destruct q as [n d]. unfold Qle in Ha, Hb. cbn [Qnum Qden inject_Z] in *.
  set (k := rint (n # d)) in *. clearbody k.
  assert (0 < Zpos d) by reflexivity. nia.
Qed.

Lemma share_range (v t : Z) (q : Q) :
  0 <= v <= t -> share v t = Some q -> (0 <= q <= 100)%Q.
Proof.
  intros Hv. unfold share. destruct (Z.eqb_spec t 0) as [|Ht]; [discriminate|].
  intros E. injection E as <-. unfold round1.
  assert (Hr : 0 <= rint (inject_Z v / inject_Z t * 100 * 10) <= 1000).
  { apply rint_range. destruct t as [|p|p]; try lia.
    unfold Qle, Qdiv, Qmult, Qinv, inject_Z. cbn -[Z.mul Pos.mul].
    rewrite !Pos.mul_1_r, !Pos.mul_1_l, !Z.mul_1_r. lia. }
  unfold Qle. cbn [Qnum Qden]. lia.
Qed.

(** X6. The Overview table neither loses nor repeats a record: under
    either metric its values add up to the metric over the whole filtered
    frame. When no weight is negative (always so under the raw count and
    for loaded records), a row's value lies between 0 and the total of its
    state, and its share between 0 and 100. *)
Theorem overview_conserves (m : Metric) (df : list Row) :
  zsum (map sum_value (overview m df)) = group_value m df /\
  ((forall r, In r df -> 0 <= metric_weight m r) ->
   forall x, In x (overview m df) ->
     0 <= sum_value x <= sum_total x /\
     forall q, sum_share x = Some q -> (0 <= q <= 100)%Q).
Proof.
  split.
  - rewrite overview_rows, map_map, group_value_weight.
    rewrite (map_ext _ (fun k => zsum (map (metric_weight m)
                                          (group pair_dec state_class df k))))
      by (intros [s c]; unfold with_share; cbn [sum_value];
          apply group_value_weight).
    rewrite (zsum_groups pair_dec state_class (metric_weight m))
      by apply group_keys_NoDup.
    f_equal. f_equal. apply filter_all. intros r Hr.
    destruct (in_dec pair_dec (state_class r) _) as [|Hn]; [reflexivity|].
    exfalso. apply Hn. apply group_keys_In. now exists r.
  - intros Hw x Hx.
    destruct (overview_row_share _ _ _ Hx) as [Hs Ht].
    assert (Hv : 0 <= sum_value x <= sum_total x).
    { rewrite Ht, group_total_grouped. rewrite overview_rows in Hx.
      apply in_map_iff in Hx. destruct Hx as [[s c] [<- _]]. cbn.
      rewrite group_state_class, !group_value_weight. split.
      - apply zsum_nonneg. intros z Hz. apply in_map_iff in Hz.
        destruct Hz as [r [<- Hr]]. apply Hw. unfold of_state_class in Hr.
        now apply filter_In in Hr.
      - unfold of_state_class, of_state. now apply zsum_filter_and_le. }
    split; [exact Hv|]. intros q Hq. rewrite Hs, <- Ht in Hq.
    now apply (share_range _ _ _ Hv).
Qed.

Lemma overview_conserves_witness :
  zsum (map sum_value (overview PositionWeighted (map load_row tie_rows))) = 16 /\
  forall x, In x (overview PositionWeighted (map load_row tie_rows)) ->
    0 <= sum_value x <= sum_total x /\
    forall q, sum_share x = Some q -> (0 <= q <= 100)%Q.
Proof.
  split; [exact (proj1 (overview_conserves PositionWeighted (map load_row tie_rows)))|].
  apply (proj2 (overview_conserves PositionWeighted (map load_row tie_rows))).
  intros r Hr. cbn in Hr. cbn [metric_weight].
  repeat (destruct Hr as [<-|Hr]; [vm_compute; discriminate|]). contradiction.
Defined.

Lemma zsum_between (l : list Z) (a b : Z) :
  (forall z, In z l -> a <= z <= b) ->
  a * Z.of_nat (List.length l) <= zsum l <= b * Z.of_nat (List.length l).
Proof.
  induction l as [|z l IH]; intros H; [cbn; lia|].
  assert (Hz : a <= z <= b) by (apply H; now left).
  assert (IH' := IH (fun y Hy => H y (or_intror Hy))).
  cbn [List.length zsum fold_right]. unfold zsum in *. lia.
Qed.

Lemma Forall2_map_same {A B C : Type} (R : B -> C -> Prop) (f : A -> B) (g : A -> C)
    (l : list A) :
  (forall a, In a l -> R (f a) (g a)) -> Forall2 R (map f l) (map g l).
Proof.
  induction l as [|a l IH]; intros H; cbn; constructor.
  - apply H. now left.
  - apply IH. intros b Hb. apply H. now right.
Qed.

(** X7. Switching the metric keeps the rows of the Overview table and
    their order. With a position range within [1,10], every weighted value
    over the filtered loaded records lies between the raw count of its row
    and ten times that count. *)
Theorem metrics_agree_on_rows (csv : Csv) (df out : list Row) (lo hi : Z)
    (sel : list string) (text : string) :
  load_data (Some csv) = Loaded df -> 1 <= lo -> hi <= 10 ->
  apply_filters lo hi sel text df = Some out ->
  map summary_key (overview RawCount out) =
  map summary_key (overview PositionWeighted out) /\
  Forall2 (fun x y => sum_value x <= sum_value y <= 10 * sum_value x)
          (overview RawCount out) (overview PositionWeighted out).
Proof.
  intros Hload Hlo Hhi Hout. split; [now rewrite !overview_keys|].
  rewrite !overview_rows. apply Forall2_map_same. intros [s c] _.
  unfold with_share. cbn [sum_value group_value].
  set (g := group pair_dec state_class out (s, c)).
  pose proof (zsum_between (map position_weight g) 1 10) as H.
  rewrite length_map in H. enough (forall z, In z (map position_weight g) ->
                                              1 <= z <= 10) by (specialize (H H0); lia).
  intros z Hz. apply in_map_iff in Hz. destruct Hz as [r [<- Hr]].
  apply group_In in Hr. destruct Hr as [Hr _].
  apply (apply_filters_incl _ _ _ _ _ _ Hout) in Hr.
  apply position_filter_bounds in Hr. destruct Hr as [Hin [p [Hp Hrange]]].
  rewrite (loaded_row_weight csv df r Hload Hin), Hp. cbn [weight_of_position]. lia.
Qed.

Lemma metrics_agree_on_rows_witness :
  map summary_key (overview RawCount (map load_row tie_rows)) =
  map summary_key (overview PositionWeighted (map load_row tie_rows)) /\
  Forall2 (fun x y => sum_value x <= sum_value y <= 10 * sum_value x)
          (overview RawCount (map load_row tie_rows))
          (overview PositionWeighted (map load_row tie_rows)).
Proof.
  apply (metrics_agree_on_rows (full_csv tie_rows) (map load_row tie_rows)
           (map load_row tie_rows) 1 10 ["CA"] EmptyString).
  - reflexivity.
  - lia.
  - lia.
  - reflexivity.
Defined.

(** ** Keyword Detail: the table *)

Lemma dropna_keyword_In (df : list Row) (k : string) (r : Row) :
  In (k, r) (dropna_keyword df) <-> In r df /\ keyword r = Some k.
Proof.
  unfold dropna_keyword. rewrite in_flat_map. split.
  - intros [r' [Hr' Hin]]. destruct (keyword r') as [k'|] eqn:E; [|contradiction].
    destruct Hin as [H|[]]. injection H as <- <-. now split.
  - intros [Hin Hk]. exists r. split; [exact Hin|]. rewrite Hk. now left.
Qed.

Lemma kw_group_records (df : list Row) (k c : string) :
  map snd (group pair_dec kw_class (dropna_keyword df) (k, c)) =
  of_keyword_class k c df.
Proof.
  unfold group, of_keyword_class, dropna_keyword, has_keyword.
  induction df as [|r df IH]; [reflexivity|].
  cbn [flat_map filter]. destruct (keyword r) as [k'|] eqn:E.
  - cbn [app filter]. unfold kw_class at 1. cbn [fst snd].
    destruct (pair_dec (k', classification r) (k, c)) as [H|H].
    + injection H as -> ->. rewrite !String.eqb_refl. cbn [andb map snd].
      now rewrite IH.
    + destruct (String.eqb_spec k' k), (String.eqb_spec (classification r) c);
        cbn [andb]; try congruence; exact IH.
  - cbn [app andb]. exact IH.
Qed.

Lemma kw_keyword_records (df : list Row) (k : string) :
  map snd (filter (fun x => String.eqb (fst x) k) (dropna_keyword df)) =
  of_keyword k df.
Proof.
  unfold of_keyword, dropna_keyword, has_keyword.
  induction df as [|r df IH]; [reflexivity|].
  cbn [flat_map filter]. destruct (keyword r) as [k'|].
  - cbn [app filter fst]. destruct (String.eqb k' k); cbn [map snd]; now rewrite IH.
  - exact IH.
Qed.

Lemma kw_summary_keys (df : list Row) :
  map kw_key (kw_summary df) =
  group_keys pair_dec pair_leb kw_class (dropna_keyword df).
Proof.
  unfold kw_summary, kw_grouped. cbv zeta. rewrite !map_map.
  rewrite <- (map_id (group_keys _ _ _ _)) at 2.
  apply map_ext. intros [k c]. reflexivity.
Qed.

(** The total a keyword's shares are taken of is the weight of all its
    records. *)
Lemma kw_total_grouped (df : list Row) (k : string) :
  kw_total (kw_grouped df) k = zsum (map position_weight (of_keyword k df)).
Proof.
  unfold kw_total, group_total, kw_grouped, group at 1. cbv zeta.
  rewrite filter_map_swap, map_map. cbn [snd].
  rewrite (zsum_groups pair_dec kw_class (fun x => position_weight (snd x)))
    by apply NoDup_filter, group_keys_NoDup.
  rewrite <- kw_keyword_records, map_map. f_equal. f_equal.
  apply filter_ext_In. intros [k' r] Hx.
  match goal with |- (if ?d then _ else _) = _ => destruct d as [Hin|Hnin] end.
  - apply filter_In in Hin. destruct Hin as [_ Hs]. unfold row_state in Hs.
    cbn [fst snd kw_class] in Hs. cbn [fst].
    destruct (string_dec k' k) as [->|]; [|discriminate].
    now rewrite String.eqb_refl.
  - cbn [fst]. destruct (String.eqb_spec k' k) as [E|NE]; [|reflexivity].
    exfalso. apply Hnin. apply filter_In. split.
    + apply group_keys_In. now exists (k', r).
    + unfold row_state. cbn [fst snd kw_class].
      destruct (string_dec k' k); congruence.
Qed.

(** X8. The Keyword Detail table has exactly one row per (keyword,
    classification) pair of the records that have a keyword; records
    without a keyword are left out. The weight of a row is the sum of the
    position weights of the records of its pair. Its share has one decimal
    place and lies within 0.05 of that weight over the weight of all records
    of the keyword, times 100, which is what rounding to one decimal gives
    whichever way a tie goes; on a zero total the share is not a number. *)
Theorem kw_summary_spec (df : list Row) :
  let out := kw_summary df in
  NoDup (map kw_key out) /\
  (forall k c, In (k, c) (map kw_key out) <->
               exists r, In r df /\ keyword r = Some k /\ classification r = c) /\
  (forall x, In x out ->
     let total := zsum (map position_weight (of_keyword (kw_keyword x) df)) in
     kw_weight x =
       zsum (map position_weight
                 (of_keyword_class (kw_keyword x) (kw_classification x) df)) /\
     (total = 0 -> kw_share x = None) /\
     (total <> 0 ->
      exists q, kw_share x = Some q /\
        rounded_to_one_decimal (inject_Z (kw_weight x) / inject_Z total * 100) q)).
Proof.
  cbv zeta. split; [|split].
  - rewrite kw_summary_keys. apply group_keys_NoDup.
  - intros k c. rewrite kw_summary_keys, group_keys_In. split.
    + intros [[k' r] [Hin Hk]]. unfold kw_class in Hk. cbn [fst snd] in Hk.
      injection Hk as -> <-. apply dropna_keyword_In in Hin. exists r. tauto.
    + intros [r [Hin [Hk <-]]]. exists (k, r). split; [|reflexivity].
      now apply dropna_keyword_In.
  - intros x Hx. rewrite <- kw_total_grouped.
    unfold kw_summary in Hx. cbv zeta in Hx. apply in_map_iff in Hx.
    destruct Hx as [[[k c] w] [<- Hin]]. cbn [kw_weight kw_keyword kw_classification kw_share].
    split; [|apply share_rounded].
    unfold kw_grouped in Hin. cbv zeta in Hin. apply in_map_iff in Hin.
    destruct Hin as [[k' c'] [E _]]. injection E as -> -> <-.
    now rewrite <- kw_group_records, map_map.
Qed.

(** ** Keyword Detail: the sums checked *)

Lemma kw_rows_total (df : list Row) (k : string) :
  zsum (map kw_weight (rows_of_keyword k (kw_summary df))) =
  kw_total (kw_grouped df) k.
Proof.
  unfold rows_of_keyword, kw_summary, kw_total, group_total, group. cbv zeta.
  rewrite filter_map_swap, map_map. f_equal.
  rewrite (filter_ext_In _ (fun a => if string_dec (row_state a) k then true else false)).
  - apply map_ext. intros [[k' c] w]. reflexivity.
  - intros [[k' c] w] _. reflexivity.
Qed.

Lemma kw_rows_share (df : list Row) (k : string) (x : KwRow) :
  In x (rows_of_keyword k (kw_summary df)) ->
  kw_share x = share (kw_weight x) (kw_total (kw_grouped df) k).
Proof.
  intros Hx. apply group_In in Hx. destruct Hx as [Hx <-].
  destruct (kw_summary_rows _ _ Hx) as [c [_ Hs]]. exact Hs.
Qed.




(** ** Sorted tables *)

Lemma none_last_le {A : Type} (cmp : A -> A -> comparison) (x y : option A) :
  none_last cmp x y <> Gt ->
  (x = None -> y = None) /\
  (forall a b, x = Some a -> y = Some b -> cmp a b <> Gt).
Proof.
  destruct x as [a|], y as [b|]; cbn; intros H; split; congruence.
Qed.

Lemma string_leb_compare (a b : string) :
  String.compare a b <> Gt -> String.leb a b = true.
Proof. unfold String.leb. destruct (String.compare a b); congruence. Qed.

Lemma then_by_le {A : Type} (c1 c2 : A -> A -> comparison) (x y : A) :
  then_by c1 c2 x y <> Gt ->
  c1 x y <> Gt /\ (c1 x y = Eq -> c2 x y <> Gt).
Proof.
  unfold then_by. destruct (c1 x y); intros H; split; congruence.
Qed.

Lemma serp_order_cmp : OrderCmp serp_order.
Proof.
  unfold serp_order.
  apply then_by_order; [apply on_column_order, string_order|].
  apply then_by_order; apply on_column_order, none_last_order.
  - apply string_order.
  - apply Z_order.
Qed.

Lemma share_order_cmp : OrderCmp (none_last (descending Qcompare)).
Proof. apply none_last_order, descending_order, Q_order. Qed.

Lemma overview_order_cmp : OrderCmp overview_order.
Proof.
  unfold overview_order. apply then_by_order; apply on_column_order.
  - apply string_order.
  - apply share_order_cmp.
Qed.

Lemma kw_order_cmp : OrderCmp kw_order.
Proof.
  unfold kw_order. apply then_by_order; apply on_column_order.
  - apply string_order.
  - apply share_order_cmp.
Qed.

(** X10. The SERP table holds the filtered records, each as often as the
    frame does, ordered by state, then by keyword, then by position, each
    ascending; within a state the records without a keyword come last. *)
Theorem serp_table_sorted (df : list Row) :
  Permutation (serp_table df) df /\
  StronglySorted
    (fun a b =>
       String.leb (state a) (state b) = true /\
       (state a = state b ->
        (keyword a = None -> keyword b = None) /\
        (forall ka kb, keyword a = Some ka -> keyword b = Some kb ->
                       String.leb ka kb = true) /\
        (keyword a = keyword b ->
         (position a = None -> position b = None) /\
         (forall pa pb, position a = Some pa -> position b = Some pb -> pa <= pb))))
    (serp_table df).
Proof.
  destruct (@sort_values_sorted _ serp_order serp_order_cmp df) as [Hperm Hs].
  split; [exact Hperm|].
  apply StronglySorted_impl with (2 := Hs). intros a b Hle.
  unfold serp_order in Hle. apply then_by_le in Hle.
  destruct Hle as [H1 H23]. unfold on_column in H1.
  split; [now apply string_leb_compare|]. intros Est.
  assert (E1 : on_column state String.compare a b = Eq)
    by (unfold on_column; rewrite Est;
        apply (@cmp_refl _ String.compare string_order)).
  apply H23, then_by_le in E1.
  destruct E1 as [H2 H3]. unfold on_column in H2.
  apply none_last_le in H2. destruct H2 as [H2n H2s].
  split; [exact H2n|]. split.
  - intros ka kb Ea Eb. apply string_leb_compare. now apply H2s.
  - intros Ekw.
    assert (E2 : on_column keyword (none_last String.compare) a b = Eq)
      by (unfold on_column; rewrite Ekw;
          apply (@cmp_refl _ (none_last String.compare)
                   (none_last_order String.compare))).
    apply H3 in E2. unfold on_column in E2. apply none_last_le in E2.
    destruct E2 as [H3n H3s]. split; [exact H3n|].
    intros pa pb Ea Eb. specialize (H3s pa pb Ea Eb).
    now apply Z.compare_le_iff.
Qed.

Lemma share_column_le (x y : option Q) :
  none_last (descending Qcompare) x y <> Gt ->
  (x = None -> y = None) /\
  (forall qa qb, x = Some qa -> y = Some qb -> (qb <= qa)%Q).
Proof.
  intros H. apply none_last_le in H. destruct H as [Hn Hs]. split; [exact Hn|].
  intros qa qb Ea Eb. apply Qle_alt. exact (Hs qa qb Ea Eb).
Qed.

(** X11. The tables shown under the Overview and Keyword Detail charts
    hold the rows of the aggregation, each once, ordered by state (by
    keyword) ascending and, within one state (keyword), by share
    descending, the rows without a share last. *)
Theorem display_tables_sorted (m : Metric) (df : list Row) :
  Permutation (overview_display m df) (map shown (overview m df)) /\
  StronglySorted
    (fun a b =>
       String.leb (fst (fst a)) (fst (fst b)) = true /\
       (fst (fst a) = fst (fst b) ->
        (snd a = None -> snd b = None) /\
        (forall qa qb, snd a = Some qa -> snd b = Some qb -> (qb <= qa)%Q)))
    (overview_display m df) /\
  Permutation (kw_display df) (kw_summary df) /\
  StronglySorted
    (fun a b =>
       String.leb (kw_keyword a) (kw_keyword b) = true /\
       (kw_keyword a = kw_keyword b ->
        (kw_share a = None -> kw_share b = None) /\
        (forall qa qb, kw_share a = Some qa -> kw_share b = Some qb -> (qb <= qa)%Q)))
    (kw_display df).
Proof.
  destruct (@sort_values_sorted _ overview_order overview_order_cmp
              (map shown (overview m df))) as [P1 S1].
  destruct (@sort_values_sorted _ kw_order kw_order_cmp (kw_summary df)) as [P2 S2].
  split; [exact P1|]. split; [|split; [exact P2|]].
  - apply StronglySorted_impl with (2 := S1). intros a b Hle.
    unfold overview_order in Hle. apply then_by_le in Hle.
    destruct Hle as [H1 H2]. unfold on_column in H1, H2.
    split; [now apply string_leb_compare|]. intros E.
    apply share_column_le, H2. rewrite E.
    apply (@cmp_refl _ String.compare string_order).
  - apply StronglySorted_impl with (2 := S2). intros a b Hle.
    unfold kw_order in Hle. apply then_by_le in Hle.
    destruct Hle as [H1 H2]. unfold on_column in H1, H2.
    split; [now apply string_leb_compare|]. intros E.
    apply share_column_le, H2. rewrite E.
    apply (@cmp_refl _ String.compare string_order).
Qed.

(** ** Keyword input *)

Lemma lower_ascii_idem (c : ascii) :
  Str.lower_ascii (Str.lower_ascii c) = Str.lower_ascii c.
Proof. destruct c as [[] [] [] [] [] [] [] []]; reflexivity. Qed.

Lemma is_space_lower (c : ascii) : Str.is_space (Str.lower_ascii c) = Str.is_space c.
Proof. destruct c as [[] [] [] [] [] [] [] []]; reflexivity. Qed.

Lemma lower_idem (s : string) : Str.lower (Str.lower s) = Str.lower s.
Proof.
  induction s as [|c s IH]; cbn; [reflexivity|]. now rewrite lower_ascii_idem, IH.
Qed.

Lemma lstrip_lower (s : string) : Str.lstrip (Str.lower s) = Str.lower (Str.lstrip s).
Proof.
  induction s as [|c s IH]; [reflexivity|]. cbn [Str.lower Str.lstrip].
  rewrite is_space_lower. destruct (Str.is_space c); [exact IH | reflexivity].
Qed.

Lemma rstrip_lower (s : string) : Str.rstrip (Str.lower s) = Str.lower (Str.rstrip s).
Proof.
  induction s as [|c s IH]; [reflexivity|]. cbn [Str.lower Str.rstrip].
  rewrite IH, is_space_lower. destruct (Str.rstrip s); cbn [Str.lower];
    [destruct (Str.is_space c)|]; reflexivity.
Qed.

Lemma strip_lower (s : string) : Str.strip (Str.lower s) = Str.lower (Str.strip s).
Proof. unfold Str.strip. now rewrite lstrip_lower, rstrip_lower. Qed.

Lemma rstrip_idem (s : string) : Str.rstrip (Str.rstrip s) = Str.rstrip s.
Proof.
  induction s as [|c s IH]; [reflexivity|]. cbn [Str.rstrip].
  destruct (Str.rstrip s) as [|d t] eqn:E.
  - destruct (Str.is_space c) eqn:Ec; [reflexivity|]. cbn. now rewrite Ec.
  - cbn [Str.rstrip]. cbn [Str.rstrip] in IH. now rewrite IH.
Qed.

Lemma lstrip_no_leading_space (s : string) : no_leading_space (Str.lstrip s) = true.
Proof.
  induction s as [|c s IH]; [reflexivity|]. cbn [Str.lstrip].
  destruct (Str.is_space c) eqn:E; [exact IH|]. cbn. now rewrite E.
Qed.

Lemma rstrip_no_leading_space (s : string) :
  no_leading_space s = true -> no_leading_space (Str.rstrip s) = true.
Proof.
  destruct s as [|c s]; [reflexivity|]. cbn [no_leading_space Str.rstrip].
  intros H. destruct (Str.rstrip s); [|exact H].
  apply negb_true_iff in H. rewrite H. cbn. now rewrite H.
Qed.

Lemma lstrip_fixed (s : string) : no_leading_space s = true -> Str.lstrip s = s.
Proof.
  destruct s as [|c s]; [reflexivity|]. cbn. intros H.
  apply negb_true_iff in H. now rewrite H.
Qed.

Lemma strip_idem (s : string) : Str.strip (Str.strip s) = Str.strip s.
Proof.
  unfold Str.strip.
  rewrite (lstrip_fixed (Str.rstrip (Str.lstrip s)))
    by apply rstrip_no_leading_space, lstrip_no_leading_space.
  apply rstrip_idem.
Qed.

Lemma rstrip_snoc_space (s : string) (c : ascii) :
  Str.is_space c = true -> Str.rstrip (s ++ String c EmptyString) = Str.rstrip s.
Proof.
  intros Hc. induction s as [|a s IH].
  - cbn. now rewrite Hc.
  - cbn [append Str.rstrip]. now rewrite IH.
Qed.

Lemma strip_snoc_space (s : string) (c : ascii) :
  Str.is_space c = true -> Str.strip (s ++ String c EmptyString) = Str.strip s.
Proof.
  intros Hc. unfold Str.strip. induction s as [|a s IH].
  - cbn. now rewrite Hc.
  - cbn [append Str.lstrip]. destruct (Str.is_space a); [exact IH|].
    apply (rstrip_snoc_space (String a s) c Hc).
Qed.

(** X12. The keyword input is read up to letter case and surrounding white
    space: normalising it twice changes nothing, two inputs that differ
    only in the case of their ASCII letters give the same search string,
    and so do an input and the same input with a white space character
    put before or after it. *)
Theorem keyword_sel_normal (text : string) :
  keyword_sel (keyword_sel text) = keyword_sel text /\
  (forall text', Str.lower text = Str.lower text' ->
                 keyword_sel text = keyword_sel text') /\
  (forall c, Str.is_space c = true ->
             keyword_sel (String c text) = keyword_sel text /\
             keyword_sel (text ++ String c EmptyString) = keyword_sel text).
Proof.
  unfold keyword_sel. split; [|split].
  - now rewrite strip_lower, lower_idem, strip_idem.
  - intros text' E. now rewrite <- !strip_lower, E.
  - intros c Hc. split.
    + unfold Str.strip. cbn [Str.lstrip]. now rewrite Hc.
    + now rewrite strip_snoc_space.
Qed.

(** ** Selections *)

(** X13. Whenever the script gets to a filtered frame, it also does with a
    wider position range or with more states selected, and the wider
    selection removes no record, whatever the keyword input and the text
    library. *)
Theorem filters_monotone (lib : TextLib) (lo hi lo' hi' : Z)
    (sel sel' : list string) (text : string) (file : option Csv)
    (out : list Row) :
  lo' <= lo -> hi <= hi' -> incl sel sel' ->
  script_filters lib lo hi sel text file = Ok out ->
  exists out', script_filters lib lo' hi' sel' text file = Ok out' /\
               incl out out'.
Proof.
  intros Hlo Hhi Hsel Hout. unfold script_filters in *.
  destruct file as [csv|]; [|discriminate Hout].
  destruct (load_data (Some csv)) as [df| |c]; try discriminate Hout.
  destruct (keyword_step_cases lib (keyword_column csv) text)
    as [[e He]|[f Hf]].
  - rewrite He in Hout. discriminate Hout.
  - rewrite Hf in Hout. injection Hout as <-. rewrite Hf.
    eexists. split; [reflexivity|].
    intros r Hr. unfold state_filter, position_filter in *.
    rewrite !filter_In in *. destruct Hr as [[[Hin Hb] Hs] Hk].
    repeat split; auto.
    + apply between_spec in Hb. destruct Hb as [p [Hp Hr]].
      apply between_spec. exists p. split; [exact Hp | lia].
    + apply isin_In. apply Hsel. now apply isin_In.
Qed.

Lemma filters_monotone_witness :
  exists out',
    script_filters ascii_lib 1 10 ["CA"; "NJ"] "casino" (Some (full_csv gap_rows))
    = Ok out' /\
    incl (firstn 1 (map load_row gap_rows)) out'.
Proof.
  apply (filters_monotone ascii_lib 1 4 1 10 ["CA"] ["CA"; "NJ"] "casino"
           (Some (full_csv gap_rows))).
  - lia.
  - lia.
  - intros s [<-|[]]. now left.
  - reflexivity.
Defined.

(** ** Exact shares *)

Lemma share_of_whole (v : Z) : v <> 0 -> share v v = Some (1000 # 10)%Q.
Proof.
  intros Hv. unfold share. destruct (Z.eqb_spec v 0); [contradiction|].
  unfold round1. f_equal. f_equal.
  assert (E : (inject_Z v / inject_Z v * 100 * 10 == inject_Z 1000)%Q).
  { change (inject_Z 1000) with 1000%Q. field. intros H. apply Hv.
    unfold Qeq in H. cbn in H. lia. }
  pose proof (rint_range (inject_Z v / inject_Z v * 100 * 10) 1000 1000) as H.
  assert (Hq : (inject_Z 1000 <= inject_Z v / inject_Z v * 100 * 10
                <= inject_Z 1000)%Q)
    by (split; rewrite E; apply Qle_refl).
  specialize (H Hq). lia.
Qed.

(** X15. A state with a single classification in the Overview table, and
    a keyword with a single classification in the Keyword Detail table,
    has the share 100.0 exactly whenever its total is not zero. *)
Theorem single_class_share (m : Metric) (df : list Row) :
  (forall x, rows_of_state (sum_state x) (overview m df) = [x] ->
             sum_total x <> 0 -> sum_share x = Some (1000 # 10)%Q) /\
  (forall x, rows_of_keyword (kw_keyword x) (kw_summary df) = [x] ->
             kw_weight x <> 0 -> kw_share x = Some (1000 # 10)%Q).
Proof.
  split.
  - intros x Hrows HT.
    assert (Hx : In x (overview m df)).
    { assert (H : In x (rows_of_state (sum_state x) (overview m df)))
        by (rewrite Hrows; now left).
      now apply rows_of_state_In in H. }
    destruct (overview_row_share _ _ _ Hx) as [Hs Ht].
    pose proof (overview_state_total m df (sum_state x)) as Hsum.
    rewrite Hrows in Hsum. cbn [map zsum fold_right] in Hsum.
    rewrite <- Ht in Hsum.
    assert (Hv : sum_value x = sum_total x) by lia.
    rewrite Hs, <- Ht, Hv. now apply share_of_whole.
  - intros x Hrows HT.
    assert (Hx : In x (rows_of_keyword (kw_keyword x) (kw_summary df)))
      by (rewrite Hrows; now left).
    rewrite (kw_rows_share df _ x Hx).
    pose proof (kw_rows_total df (kw_keyword x)) as Hsum.
    rewrite Hrows in Hsum. cbn [map zsum fold_right] in Hsum.
    assert (Hv : kw_total (kw_grouped df) (kw_keyword x) = kw_weight x) by lia.
    rewrite Hv. now apply share_of_whole.
Qed.

(** ** Brand names shown *)

(** X17. Every brand shown for a column is a piece of the cell of some
    filtered record; it is not empty and has no comma-space in it. *)
Theorem brand_breakdown_names (col : Row -> option string) (df : list Row)
    (b : string) (n : nat) :
  In (b, n) (brand_breakdown col df) ->
  b <> EmptyString /\ ~ Str.contains b ", " /\
  exists r cell, In r df /\ col r = Some cell /\ In b (Str.split_comma_space cell).
Proof.
  intros Hin. unfold brand_breakdown in Hin. apply firstn_incl in Hin.
  apply (Permutation_in _ (isort_perm _ _)) in Hin.
  apply brand_sizes_In in Hin. destruct Hin as [Hin _].
  rewrite brand_names_pieces in Hin. apply filter_In in Hin.
  destruct Hin as [Hin Hne]. unfold brand_pieces in Hin.
  apply in_flat_map in Hin. destruct Hin as [r [Hr Hb]].
  destruct (col r) as [cell|] eqn:E; [|contradiction].
  split; [intros ->; discriminate Hne|]. split.
  - destruct (split_comma_space_pieces cell) as [_ Hfree].
    rewrite Forall_forall in Hfree. now apply Hfree.
  - now exists r, cell.
Qed.

Lemma brand_breakdown_names_witness :
  "A" <> EmptyString /\ ~ Str.contains "A" ", " /\
  exists r cell, In r (map load_row brand_rows) /\ real_brands r = Some cell /\
                 In "A" (Str.split_comma_space cell).
Proof.
  apply (brand_breakdown_names real_brands (map load_row brand_rows) "A" 2).
  vm_compute. left. reflexivity.
Defined.

(** ** Keyword Detail: the sanity check *)

Lemma rows_of_keyword_filter (k : string) (summary : list KwRow) :
  rows_of_keyword k summary =
  filter (fun x => String.eqb (kw_keyword x) k) summary.
Proof.
  unfold rows_of_keyword, group. apply filter_ext_In. intros x _.
  destruct (string_dec (kw_keyword x) k) as [->|NE].
  - now rewrite String.eqb_refl.
  - symmetry. now apply String.eqb_neq.
Qed.

Lemma exceeds_iff (fc : FloatCheck) (q : Q) :
  exceeds fc q = true <-> (float_limit fc < q)%Q.
Proof.
  unfold exceeds. rewrite Qlt_alt, <- (Qcompare_antisym (float_limit fc) q).
  destruct (float_limit fc ?= q)%Q; cbn [CompOpp]; split; intros H;
    solve [reflexivity | discriminate H].
Qed.

Lemma rounding_warning_iff (fc : FloatCheck) (summary : list KwRow) :
  rounding_warning fc summary = true <->
  exists k, In k (map kw_keyword summary) /\
    (float_limit fc
     < float_sum fc (map kw_share
                         (filter (fun x => String.eqb (kw_keyword x) k) summary)))%Q.
Proof.
  unfold rounding_warning, check. rewrite existsb_exists. split.
  - intros [[k q] [Hin Hq]]. cbn [snd] in Hq. apply exceeds_iff in Hq.
    apply (Permutation_in _ (isort_perm _ _)) in Hin.
    apply in_map_iff in Hin. destruct Hin as [k' [E Hk]]. injection E as -> <-.
    exists k. rewrite <- rows_of_keyword_filter. split; [|exact Hq].
    apply group_keys_In in Hk. destruct Hk as [x [Hx <-]]. now apply in_map.
  - intros [k [Hk Hq]]. rewrite <- rows_of_keyword_filter in Hq.
    eexists (k, _). split.
    + apply (Permutation_in _ (Permutation_sym (isort_perm _ _))).
      apply in_map_iff. exists k. split; [reflexivity|].
      apply group_keys_In. apply in_map_iff in Hk.
      destruct Hk as [x [Hx Hin]]. now exists x.
    + cbn [snd]. now apply exceeds_iff.
Qed.

Lemma keyword_detail_warning (fc : FloatCheck) (summary : list KwRow) :
  In ShowWarning (keyword_detail_view fc summary) <->
  rounding_warning fc summary = true.
Proof.
  unfold keyword_detail_view.
  destruct (rounding_warning fc summary); cbn.
  - split; [reflexivity | intros _; tauto].
  - split; [|discriminate].
    intros [H|[H|[H|[H|[]]]]]; discriminate H.
Qed.

(** The shares of the Keyword Detail table have one decimal place. *)
Lemma kw_summary_one_decimal (df : list Row) : one_decimal_shares (kw_summary df).
Proof.
  intros x Hx. destruct (kw_summary_rows _ _ Hx) as [c [_ Hs]]. rewrite Hs.
  unfold share. destruct (_ =? 0); [now left|]. right. eexists. reflexivity.
Qed.

Lemma summed_share_one_decimal (k : string) (summary : list KwRow) :
  one_decimal_shares summary ->
  exists m : Z, (summed_share k summary == m # 10)%Q.
Proof.
  unfold summed_share, one_decimal_shares. induction summary as [|x l IH]; intros H.
  - exists 0. reflexivity.
  - destruct IH as [m Hm]; [intros y Hy; apply H; now right|].
    cbn [filter]. destruct (String.eqb (kw_keyword x) k); [|now exists m].
    cbn [map fold_right]. destruct (H x (or_introl eq_refl)) as [E|[n E]]; rewrite E.
    + exists m. rewrite Hm. ring.
    + exists (n + m). rewrite Hm. unfold Qeq, Qplus. cbn [Qnum Qden]. lia.
Qed.

Lemma share_sum_summed (k : string) (summary : list KwRow) :
  (share_sum (map kw_share (filter (fun x => String.eqb (kw_keyword x) k) summary))
   == summed_share k summary)%Q.
Proof.
  unfold summed_share, share_sum.
  induction (filter (fun x => String.eqb (kw_keyword x) k) summary) as [|x l IH].
  - reflexivity.
  - cbn [map fold_right]. destruct (kw_share x); rewrite IH; ring.
Qed.

Lemma exact_check_accurate (summary : list KwRow) : accurate exact_check summary.
Proof.
  split.
  - intros k. cbn [float_sum exact_check]. rewrite share_sum_summed.
    apply Qabs_Qle_condition. split; ring_simplify; discriminate.
  - cbn [float_limit exact_check]. apply Qabs_Qle_condition.
    split; ring_simplify; discriminate.
Qed.

(** C7. On any table of Keyword Detail whose shares have one decimal
    place, as those of [kw_summary] have, and whenever the float64 sums and
    the float64 limit of the check are within 0.01 of the numbers they
    stand for: every keyword whose rounded shares add up to more than 100.1
    makes the view show the warning, and the warning is shown only when the
    rounded shares of some keyword add up to 100.1 or more. The warning is
    all the check does: with it or without it the view shows the same
    header, chart and table, and the table holds the rows of the
    aggregation, each once. *)
Theorem rounding_warning_advisory (fc : FloatCheck) (summary : list KwRow) :
  accurate fc summary -> one_decimal_shares summary ->
  let view := keyword_detail_view fc summary in
  ((exists k, In k (map kw_keyword summary) /\
              (1001 # 10 < summed_share k summary)%Q) ->
   In ShowWarning view) /\
  (In ShowWarning view ->
   exists k, In k (map kw_keyword summary) /\
             (1001 # 10 <= summed_share k summary)%Q) /\
  (exists table,
     filter (fun s => negb (is_warning s)) view =
       [ShowHeader; ShowSubheader; ShowChart summary; ShowTable table] /\
     Permutation table summary) /\
  (forall df, one_decimal_shares (kw_summary df) /\
              keyword_detail fc df = keyword_detail_view fc (kw_summary df)).
Proof.
  intros [Hsum Hlimit] Hdec. cbv zeta.
  apply Qabs_Qle_condition in Hlimit.
  split; [|split; [|split]].
  - intros [k [Hk Hq]]. apply keyword_detail_warning, rounding_warning_iff.
    exists k. split; [exact Hk|].
    destruct (summed_share_one_decimal k summary Hdec) as [m Hm].
    specialize (Hsum k). apply Qabs_Qle_condition in Hsum.
    rewrite Hm in Hq, Hsum.
    assert (Hm2 : (1002 # 10 <= m # 10)%Q).
    { unfold Qlt in Hq. unfold Qle. cbn [Qnum Qden] in *. lia. }
    set (fs := float_sum fc _) in *. set (lim := float_limit fc) in *.
    set (sm := (m # 10)%Q) in *. lra.
  - intros Hw. apply keyword_detail_warning, rounding_warning_iff in Hw.
    destruct Hw as [k [Hk Hq]]. exists k. split; [exact Hk|].
    destruct (summed_share_one_decimal k summary Hdec) as [m Hm].
    specialize (Hsum k). apply Qabs_Qle_condition in Hsum.
    rewrite Hm in Hsum |- *.
    assert (Hm2 : (10008 # 100 < m # 10)%Q).
    { set (fs := float_sum fc _) in *. set (lim := float_limit fc) in *.
      set (sm := (m # 10)%Q) in *. lra. }
    unfold Qlt in Hm2. unfold Qle. cbn [Qnum Qden] in *. lia.
  - exists (sort_values kw_order summary). split.
    + unfold keyword_detail_view.
      destruct (rounding_warning fc summary); reflexivity.
    + apply (@sort_values_sorted _ kw_order kw_order_cmp summary).
  - intros df. split; [apply kw_summary_one_decimal | reflexivity].
Qed.

Lemma rounding_warning_advisory_witness :
  let summary := kw_summary (map load_row drift_rows) in
  let view := keyword_detail_view exact_check summary in
  ((exists k, In k (map kw_keyword summary) /\
              (1001 # 10 < summed_share k summary)%Q) ->
   In ShowWarning view) /\
  (In ShowWarning view ->
   exists k, In k (map kw_keyword summary) /\
             (1001 # 10 <= summed_share k summary)%Q) /\
  (exists table,
     filter (fun s => negb (is_warning s)) view =
       [ShowHeader; ShowSubheader; ShowChart summary; ShowTable table] /\
     Permutation table summary) /\
  (forall df, one_decimal_shares (kw_summary df) /\
              keyword_detail exact_check df
              = keyword_detail_view exact_check (kw_summary df)).
Proof.
  apply (rounding_warning_advisory exact_check (kw_summary (map load_row drift_rows))).
  - apply exact_check_accurate.
  - apply kw_summary_one_decimal.
Defined.

(** On four rounded shares of 18.8, 18.8, 18.8 and 43.8, which add up to
    100.2, the warning is shown between the chart and the table. *)
Example rounding_warning_fires :
  let df := map load_row drift_rows in
  map (fun x => (kw_classification x, kw_weight x, kw_share x)) (kw_summary df) =
    [ ("Both", 3, Some (188 # 10)%Q); ("Other", 7, Some (438 # 10)%Q);
      ("Real", 3, Some (188 # 10)%Q); ("Sweeps", 3, Some (188 # 10)%Q) ] /\
  (summed_share "k1" (kw_summary df) == 1002 # 10)%Q /\
  keyword_detail exact_check df =
    [ShowHeader; ShowSubheader; ShowChart (kw_summary df); ShowWarning;
     ShowTable (kw_display df)].
Proof. cbv zeta. repeat split; vm_compute; reflexivity. Qed.
